(** * PennyLane: the flatten/unflatten codec ([pennylane/utils.py]) and the
      interferometer template ([pennylane/templates/layers.py])

    A shallow embedding of [_flatten], [_unflatten], [unflatten] and
    [Interferometer], followed by the properties established about them. *)

From Stdlib Require Import String.
From Stdlib Require Import List ZArith Arith Lia ZifyNat Bool.
Import ListNotations.

Set Implicit Arguments.
#[local] Set Warnings "-register-all".

(** ** Exceptions and results *)

(** The exceptions the two modules raise.  [IndexError] comes from indexing
    ([flat[0]], [theta[n]], [w[k]]) outside a sequence; the other three carry
    the message the source gives them. *)
Inductive exn : Type :=
| IndexError
| TypeError (msg : string)
| ValueError (msg : string)
| QuantumFunctionError (msg : string).

Inductive result (A : Type) : Type :=
| Ok (a : A)
| Raise (e : exn).

Arguments Ok {A} a.
Arguments Raise {A} e.

Definition rbind {A B} (r : result A) (k : A -> result B) : result B :=
  match r with
  | Ok a => k a
  | Raise e => Raise e
  end.

(** ** Python values *)

(** Element types of numpy arrays; [object_] is the generic one. *)
Inductive dtype : Type := int64 | float64 | complex128 | object_.

Definition dtype_eqb (a b : dtype) : bool :=
  match a, b with
  | int64, int64 | float64, float64
  | complex128, complex128 | object_, object_ => true
  | _, _ => false
  end.

(** The values the codec sees.

    - [Num z] is a [numbers.Number] that is not iterable (a Python or numpy
      scalar) whose value is the integer [z].
    - [Var] is an instance of [pennylane.variable.Variable].
    - [NoneVal] stands for an object that is neither a number, nor a
      [Variable], nor iterable.
    - [PyList] and [PyTuple] are the two sequence types.
    - [NdArray0 dt x] is a numpy array of shape [()] holding [x];
      [NdArray dt xs] is a numpy array with [shape[0] = length xs] whose
      iteration yields [xs] (scalars for a one-dimensional array, sub-arrays
      otherwise).  [dt] is the [dtype] the array was built with.

    Two things numpy does to what it stores are not part of these values.
    A number stored under a numeric element type is converted to that type,
    which leaves an integer unchanged as long as its absolute value is at
    most [2 ^ 53]; and [autograd.numpy.array] passes every item of a list
    through [np.array] before it builds the array, so that an item of an
    array of the generic type may come back inside an array of shape [()].
    [_flatten] goes through arrays of shape [()], so it yields the same
    leaves either way.

    Text and byte strings, dictionaries, sets and generators are not part of
    this data type. *)
Inductive pyval : Type :=
| Num (x : Z)
| Var (idx : nat)
| NoneVal
| PyList (xs : list pyval)
| PyTuple (xs : list pyval)
| NdArray0 (dt : dtype) (x : pyval)
| NdArray (dt : dtype) (xs : list pyval).

(** [isinstance(x, Variable)] *)
Definition is_Variable (x : pyval) : bool :=
  match x with Var _ => true | _ => false end.

(** ** [_flatten] *)

(** The generator is rendered as the list of what it yields.  For an array,
    [x.flat] runs over the elements in row-major order and each of them is
    flattened in turn, which is the concatenation of the flattened rows. *)
Fixpoint _flatten (x : pyval) : list pyval :=
  match x with
  | NdArray0 _ e => _flatten e
  | NdArray _ xs => flat_map _flatten xs
  | PyList xs => flat_map _flatten xs
  | PyTuple xs => flat_map _flatten xs
  | Num _ | Var _ | NoneVal => [x]
  end.

(** ** [np.array] *)

(** Every leaf of the value is a number. *)
Fixpoint numeric (v : pyval) : bool :=
  match v with
  | Num _ => true
  | Var _ | NoneVal => false
  | PyList xs => forallb numeric xs
  | PyTuple xs => forallb numeric xs
  | NdArray0 _ x => numeric x
  | NdArray _ xs => forallb numeric xs
  end.

(** The [TypeError] numpy raises when it is given something that is not a
    number to store under a numeric element type.  The text numpy gives it
    depends on the element type and on the object. *)
Definition not_a_number : string :=
  "float() argument must be a string or a number, not 'Variable'".

(** [np.array(items, dtype=dt)] on a list of items: the generic element type
    takes any object; a numeric one takes numbers only, at whatever depth
    they sit in the items. *)
Definition np_array (items : list pyval) (dt : dtype) : result pyval :=
  if dtype_eqb dt object_ || forallb numeric items
  then Ok (NdArray dt items)
  else Raise (TypeError not_a_number).

(** [np.array(x, dtype=dt)] on a single item [x] of the one-dimensional
    array [flat]: an array of shape [()]. *)
Definition np_array0 (x : pyval) (dt : dtype) : result pyval :=
  if dtype_eqb dt object_ || numeric x
  then Ok (NdArray0 dt x)
  else Raise (TypeError not_a_number).

(** ** [_unflatten] *)

(** The local class [Unflattener]: the running tail and the flag that decides
    the element type.  ([self.model] is only read for its [dtype], which the
    caller passes to [Unflattener_dtype].) *)
Record Unflattener : Type := mkUnflattener {
  uf_flat : list pyval;
  encountered_variable : bool
}.

Definition Unflattener_dtype (u : Unflattener) (model_dtype : dtype) : dtype :=
  if encountered_variable u then object_ else model_dtype.

Definition unsupported_type : string :=
  "Unsupported type in the model: <class 'NoneType'>".

(** [flat[0], flat[1:]] on the one-dimensional array [flat]. *)
Definition pop_front (flat : list pyval) : result (pyval * list pyval) :=
  match flat with
  | [] => Raise IndexError
  | x :: tl => Ok (x, tl)
  end.

(** [list(unflattener.gen())]: every item of the model is restored, by
    [restore], against the tail the previous item left; the flag is raised
    when a restored item is itself a [Variable]. *)
Definition Unflattener_gen
    (restore : list pyval -> pyval -> result (pyval * list pyval))
  : list pyval -> Unflattener -> result (list pyval * Unflattener) :=
  fix gen (items : list pyval) (u : Unflattener) {struct items} :=
    match items with
    | [] => Ok ([], u)
    | x :: items' =>
        match restore (uf_flat u) x with
        | Raise e => Raise e
        | Ok (res, tl) =>
            let u' := mkUnflattener tl
                        (if is_Variable res then true
                         else encountered_variable u) in
            match gen items' u' with
            | Raise e => Raise e
            | Ok (rs, u'') => Ok (res :: rs, u'')
            end
        end
    end.

Fixpoint _unflatten (flat : list pyval) (model : pyval) {struct model}
  : result (pyval * list pyval) :=
  match model with
  | Num _ | Var _ => pop_front flat
  | NdArray0 dt _ =>
      (* l = 0 because model.shape == () *)
      rbind (pop_front flat)
        (fun '(x, tl) => rbind (np_array0 x dt) (fun a => Ok (a, tl)))
  | NdArray dt xs =>
      match xs with
      | [] =>
          (* l = model.shape[0] = 0 *)
          rbind (pop_front flat)
            (fun '(x, tl) => rbind (np_array0 x dt) (fun a => Ok (a, tl)))
      | _ :: _ =>
          rbind (Unflattener_gen _unflatten xs (mkUnflattener flat false))
            (fun '(rs, u) =>
               rbind (np_array rs (Unflattener_dtype u dt))
                 (fun a => Ok (a, uf_flat u)))
      end
  | PyList xs =>
      match xs with
      | [] => Ok (PyTuple [], flat)
      | _ :: _ =>
          rbind (Unflattener_gen _unflatten xs (mkUnflattener flat false))
            (fun '(rs, u) => Ok (PyList rs, uf_flat u))
      end
  | PyTuple xs =>
      match xs with
      | [] => Ok (PyTuple [], flat)
      | _ :: _ =>
          rbind (Unflattener_gen _unflatten xs (mkUnflattener flat false))
            (fun '(rs, u) => Ok (PyTuple rs, uf_flat u))
      end
  | NoneVal => Raise (TypeError unsupported_type)
  end.

Definition more_elements : string :=
  "Flattened iterable has more elements than the model.".

(** [unflatten]: [np.asarray(flat)] turns the sequence of leaves into a
    one-dimensional array of its items (numbers converted to one type when
    there are numbers only); the [print] call writes to standard output and
    is not part of the result. *)
Definition unflatten (flat : list pyval) (model : pyval) : result pyval :=
  match _unflatten flat model with
  | Raise e => Raise e
  | Ok (res, tail) =>
      if negb (length tail =? 0) then Raise (ValueError more_elements)
      else Ok res
  end.

(** ** The interferometer template *)

(** Wire labels.  The [wires] argument of the template and of an operation is
    either a sequence of labels or one bare label. *)
Definition wire : Type := nat.

Inductive wires_arg : Type :=
| WireSeq (ws : list wire)
| WireOne (w : wire).

(** The two operations the template queues, with their arguments as the
    call site gives them. *)
Inductive operation : Type :=
| Rotation (phi : pyval) (wires : wires_arg)
| Beamsplitter (theta phi : pyval) (wires : wires_arg).

(** A keyword argument that is meant to be a [str] but may be handed over as
    a [Variable]. *)
Inductive selector : Type :=
| Str (s : string)
| SymVar (idx : nat).

Definition selector_is_Variable (s : selector) : bool :=
  match s with SymVar _ => true | Str _ => false end.

(** [s == 'text'] *)
Definition selector_eqb (s : selector) (text : string) : bool :=
  match s with
  | Str s' => String.eqb s' text
  | SymVar _ => false
  end.

(** A template runs against the queue of operations of the enclosing circuit:
    calling an operation appends it, and what was queued before an exception
    stays queued. *)
Definition Prog (A : Type) : Type :=
  list operation -> result A * list operation.

Definition ret {A} (a : A) : Prog A := fun q => (Ok a, q).

Definition raise {A} (e : exn) : Prog A := fun q => (Raise e, q).

Definition bind {A B} (m : Prog A) (k : A -> Prog B) : Prog B :=
  fun q =>
    match m q with
    | (Ok a, q') => k a q'
    | (Raise e, q') => (Raise e, q')
    end.

Notation "x <- m ;; k" := (bind m (fun x => k))
  (at level 61, m at next level, right associativity).
Notation "m ;;; k" := (bind m (fun _ => k))
  (at level 61, right associativity).

Definition queue (op : operation) : Prog unit := fun q => (Ok tt, q ++ [op]).

(** [xs[i]] for an index that is not negative. *)
Definition getitem {A} (xs : list A) (i : nat) : Prog A :=
  match nth_error xs i with
  | Some x => ret x
  | None => raise IndexError
  end.

(** A [for] loop whose body updates the local variable [s]. *)
Fixpoint for_each {A S} (xs : list A) (body : A -> S -> Prog S) (s : S)
  : Prog S :=
  match xs with
  | [] => ret s
  | x :: xs' => s' <- body x s ;; for_each xs' body s'
  end.

(** [range(stop)]: empty when [stop] is not positive. *)
Definition range (stop : Z) : list nat := seq 0 (Z.to_nat stop).

(** [range(start, stop, step)] for [0 <= start] and [0 < step]: it has
    [ceil((stop - start) / step)] elements when that is positive. *)
Definition range3 (start stop step : Z) : list nat :=
  map (fun i => Z.to_nat (start + step * Z.of_nat i))
      (seq 0 (Z.to_nat ((stop - start + step - 1) / step))).

Definition enumerate {A} (xs : list A) : list (nat * A) :=
  combine (seq 0 (length xs)) xs.

Definition beamsplitter_msg : string :=
  "The beamsplitter parameter influences the circuit architecture and can not be passed as a QNode parameter.".

Definition mesh_msg : string :=
  "The mesh parameter influences the circuit architecture and can not be passed as a QNode parameter.".

(** The Clements array: the body of [if mesh == 'rectangular']. *)
Definition rectangular_mesh (theta phi : list pyval) (w : list wire)
    (beamsplitter : selector) (N n0 : nat) : Prog nat :=
  for_each (range (Z.of_nat N)) (fun l n =>
    for_each (enumerate (combine (removelast w) (tl w)))
      (fun '(k, (w1, w2)) n =>
         if negb ((l + k) mod 2 =? 1) then
           (if selector_eqb beamsplitter "clements" then
              p <- getitem phi n ;;
              queue (Rotation p (WireSeq [w1])) ;;;
              t <- getitem theta n ;;
              queue (Beamsplitter t (Num 0) (WireSeq [w1; w2]))
            else
              t <- getitem theta n ;;
              p <- getitem phi n ;;
              queue (Beamsplitter t p (WireSeq [w1; w2]))) ;;;
           ret (n + 1)
         else ret n) n) n0.

(** The Reck array: the body of [elif mesh == 'triangular']. *)
Definition triangular_mesh (theta phi : list pyval) (w : list wire)
    (beamsplitter : selector) (N n0 : nat) : Prog nat :=
  for_each (range (2 * Z.of_nat N - 3)) (fun l n =>
    for_each (range3 (Z.abs (Z.of_nat l + 1 - (Z.of_nat N - 1)))
                     (Z.of_nat N - 1) 2)
      (fun k n =>
         (if selector_eqb beamsplitter "clements" then
            p <- getitem phi n ;;
            wk <- getitem w k ;;
            queue (Rotation p (WireSeq [wk])) ;;;
            t <- getitem theta n ;;
            wk <- getitem w k ;;
            wk1 <- getitem w (k + 1) ;;
            queue (Beamsplitter t (Num 0) (WireSeq [wk; wk1]))
          else
            t <- getitem theta n ;;
            p <- getitem phi n ;;
            wk <- getitem w k ;;
            wk1 <- getitem w (k + 1) ;;
            queue (Beamsplitter t p (WireSeq [wk; wk1]))) ;;;
         ret (n + 1)) n) n0.

(** The final local phase shifts. *)
Definition final_rotations (varphi : list pyval) (w : list wire) : Prog unit :=
  for_each (enumerate varphi) (fun '(i, p) _ =>
    wi <- getitem w i ;;
    queue (Rotation p (WireSeq [wi]))) tt.

Definition Interferometer (theta phi varphi : list pyval) (wires : wires_arg)
    (mesh beamsplitter : selector) : Prog unit :=
  if selector_is_Variable beamsplitter then
    raise (QuantumFunctionError beamsplitter_msg)
  else if selector_is_Variable mesh then
    raise (QuantumFunctionError mesh_msg)
  else
    let w := match wires with
             | WireSeq ws => ws
             | WireOne x => [x]
             end in
    let N := length w in
    if N =? 1 then
      (* the interferometer is a single rotation *)
      p <- getitem varphi 0 ;;
      w0 <- getitem w 0 ;;
      queue (Rotation p (WireOne w0))
    else
      (if selector_eqb mesh "rectangular" then
         rectangular_mesh theta phi w beamsplitter N 0
       else if selector_eqb mesh "triangular" then
         triangular_mesh theta phi w beamsplitter N 0
       else ret 0) ;;;
      final_rotations varphi w.

(** The defaults of the keyword arguments. *)
Definition default_mesh : selector := Str "rectangular".
Definition default_beamsplitter : selector := Str "pennylane".

(** * Models, flat sequences and schedules *)

(** ** Induction over nested values *)

Section pyval_induction.
Variable P : pyval -> Prop.
Hypothesis HNum : forall x, P (Num x).
Hypothesis HVar : forall i, P (Var i).
Hypothesis HNone : P NoneVal.
Hypothesis HList : forall xs, Forall P xs -> P (PyList xs).
Hypothesis HTuple : forall xs, Forall P xs -> P (PyTuple xs).
Hypothesis HArr0 : forall dt x, P x -> P (NdArray0 dt x).
Hypothesis HArr : forall dt xs, Forall P xs -> P (NdArray dt xs).

Fixpoint pyval_nested_ind (v : pyval) : P v :=
  let all := fix all (xs : list pyval) : Forall P xs :=
    match xs with
    | [] => Forall_nil P
    | x :: xs' => Forall_cons x (pyval_nested_ind x) (all xs')
    end in
  match v with
  | Num x => HNum x
  | Var i => HVar i
  | NoneVal => HNone
  | PyList xs => HList (all xs)
  | PyTuple xs => HTuple (all xs)
  | NdArray0 dt x => HArr0 dt (pyval_nested_ind x)
  | NdArray dt xs => HArr dt (all xs)
  end.
End pyval_induction.

(** ** Classes of models *)

Definition is_scalar (x : pyval) : bool :=
  match x with Num _ | Var _ => true | _ => false end.

Definition is_Num (x : pyval) : bool :=
  match x with Num _ => true | _ => false end.

(** What an array of element type [dt] may yield when iterated: a number, a
    [Variable] when the element type is the generic one, or a sub-array of
    the same element type. *)
Definition array_item (dt : dtype) (ok : pyval -> bool) (c : pyval) : bool :=
  match c with
  | Num _ => true
  | Var _ => dtype_eqb dt object_
  | NdArray dt' _ => dtype_eqb dt' dt && ok c
  | _ => false
  end.

(** The nested parameter models: numbers, [Variable]s, lists and tuples of
    models, and numpy arrays of scalars.  A numeric array holds numbers
    only. *)
Fixpoint supported (m : pyval) : bool :=
  match m with
  | Num _ | Var _ => true
  | NoneVal => false
  | PyList xs => forallb supported xs
  | PyTuple xs => forallb supported xs
  | NdArray0 dt x => is_scalar x && (is_Num x || dtype_eqb dt object_)
  | NdArray dt xs => forallb (array_item dt supported) xs
  end.

(** No array with [shape[0] == 0] occurs in the model. *)
Fixpoint no_empty_array (m : pyval) : bool :=
  match m with
  | Num _ | Var _ | NoneVal => true
  | PyList xs => forallb no_empty_array xs
  | PyTuple xs => forallb no_empty_array xs
  | NdArray0 _ x => no_empty_array x
  | NdArray _ xs => negb (length xs =? 0) && forallb no_empty_array xs
  end.


(** Every array of the model either has the generic element type or is a
    one-dimensional array of scalars: these are the arrays that can take
    [Variable]s in place of their numbers. *)
Fixpoint symbolic_safe (m : pyval) : bool :=
  match m with
  | Num _ | Var _ | NoneVal => true
  | PyList xs => forallb symbolic_safe xs
  | PyTuple xs => forallb symbolic_safe xs
  | NdArray0 dt _ => dtype_eqb dt object_
  | NdArray dt xs =>
      (dtype_eqb dt object_ || forallb is_scalar xs)
      && forallb symbolic_safe xs
  end.

(** The number of leaves of a model. *)
Definition leaf_count (m : pyval) : nat := length (_flatten m).

(** ** The schedule, as the specification describes it *)

(** One coupling of the wires [w1] and [w2] with the angles [t] and [p]:
    split into a rotation and a beamsplitter of phase 0 under the
    ['clements'] convention, one beamsplitter otherwise. *)
Definition coupling_ops (beamsplitter : selector) (t p : pyval)
    (w1 w2 : wire) : list operation :=
  if selector_eqb beamsplitter "clements" then
    [Rotation p (WireSeq [w1]); Beamsplitter t (Num 0) (WireSeq [w1; w2])]
  else
    [Beamsplitter t p (WireSeq [w1; w2])].

(** The couplings of the pairs [(k, k + 1)] for [k] in [ks], in that order,
    the first taking its angles from the slot [n] and each next one from the
    next slot. *)
Fixpoint schedule (beamsplitter : selector) (theta phi : list pyval)
    (w : list wire) (ks : list nat) (n : nat) : list operation :=
  match ks with
  | [] => []
  | k :: ks' =>
      coupling_ops beamsplitter (nth n theta NoneVal) (nth n phi NoneVal)
                   (nth k w 0) (nth (S k) w 0)
      ++ schedule beamsplitter theta phi w ks' (S n)
  end.

(** One rotation per entry of [varphi], on the wires in their order. *)
Definition rotations (varphi : list pyval) (w : list wire) : list operation :=
  map (fun '(i, p) => Rotation p (WireSeq [nth i w 0])) (enumerate varphi).

(** Rectangular mesh: the layer [l] holds the pair indices [k = 0 .. N-2]
    with [(l + k) mod 2 <> 1], and there are the layers [l = 0 .. N-1]. *)
Definition included (l k : nat) : bool := negb ((l + k) mod 2 =? 1).

Definition spec_rect_layer (N l : nat) : list nat :=
  filter (included l) (seq 0 (N - 1)).

Definition spec_rect_layers (N : nat) : list (list nat) :=
  map (spec_rect_layer N) (seq 0 N).

(** [k, k + 2, k + 4, ...] as long as the index is below [stop]. *)
Fixpoint stepping (fuel k stop : nat) : list nat :=
  match fuel with
  | 0 => []
  | S fuel' => if k <? stop then k :: stepping fuel' (k + 2) stop else []
  end.

(** Triangular mesh: the layer [l] holds the pair indices from
    [|l + 1 - (N - 1)|] on in steps of 2, below [N - 1], and there are the
    layers [l = 0 .. 2N-4]. *)
Definition spec_tri_start (N l : nat) : nat :=
  Z.abs_nat (Z.of_nat l + 1 - (Z.of_nat N - 1)).

Definition spec_tri_layer (N l : nat) : list nat :=
  stepping N (spec_tri_start N l) (N - 1).

Definition spec_tri_layers (N : nat) : list (list nat) :=
  map (spec_tri_layer N) (seq 0 (2 * N - 3)).

(** The layers of either mesh; no layer for any other text. *)
Definition mesh_layers (mesh : selector) (N : nat) : list (list nat) :=
  if selector_eqb mesh "rectangular" then spec_rect_layers N
  else if selector_eqb mesh "triangular" then spec_tri_layers N
  else [].

(** Counting the two-wire operations of a queue. *)
Definition is_Beamsplitter (op : operation) : bool :=
  match op with Beamsplitter _ _ _ => true | Rotation _ _ => false end.

Definition count_Beamsplitter (ops : list operation) : nat :=
  length (filter is_Beamsplitter ops).

(** Symbolic angle arrays: [sym a len] is [[Var a; Var (a+1); ...]]. *)
Definition sym (name : nat) (len : nat) : list pyval :=
  map (fun i => Var (name + i)) (seq 0 len).

(** Linear arithmetic with division and remainder by a constant. *)
Ltac div_lia := zify; Z.div_mod_to_equations; lia.

(** ** What restoring asks of the flat sequence *)

(** A value that [_flatten] yields as it is. *)
Definition is_leaf (x : pyval) : bool :=
  match x with Num _ | Var _ | NoneVal => true | _ => false end.

Definition leaves (flat : list pyval) : Prop :=
  Forall (fun x => is_leaf x = true) flat.

(** The number of elements [_unflatten] takes for a model: one for a number
    or a [Variable], one for an array of shape [()], one for an array with
    [shape[0] == 0], none for an empty list or tuple, and for any other
    container what its items take together. *)
Fixpoint demand (m : pyval) : nat :=
  match m with
  | Num _ | Var _ => 1
  | NoneVal => 0
  | PyList xs => list_sum (map demand xs)
  | PyTuple xs => list_sum (map demand xs)
  | NdArray0 _ _ => 1
  | NdArray _ xs =>
      match xs with
      | [] => 1
      | _ :: _ => list_sum (map demand xs)
      end
  end.

(** Restoring the model comes across an object of unsupported type: the
    model is one, or an item of a list, of a tuple or of an array of nonzero
    length does. *)
Fixpoint meets_unsupported (m : pyval) : bool :=
  match m with
  | NoneVal => true
  | Num _ | Var _ | NdArray0 _ _ => false
  | PyList xs => existsb meets_unsupported xs
  | PyTuple xs => existsb meets_unsupported xs
  | NdArray _ xs => existsb meets_unsupported xs
  end.


(** A flat sequence of numbers and [Variable]s, each number one that every
    numeric element type stores unchanged. *)
Definition is_plain (x : pyval) : bool :=
  match x with
  | Num z => (Z.abs z <=? 2 ^ 53)%Z
  | Var _ => true
  | _ => false
  end.

Definition plain (flat : list pyval) : Prop :=
  Forall (fun x => is_plain x = true) flat.

(** numpy can build every array that restoring [m] from [flat] asks for:
    [flat] holds numbers only, or no array of [m] is empty and each can take
    [Variable]s. *)
Definition buildable (flat : list pyval) (m : pyval) : Prop :=
  forallb is_Num flat = true
  \/ (symbolic_safe m = true /\ no_empty_array m = true).

(** [outcome good m flat o]: what [_unflatten flat m] comes to.  A result
    only when restoring meets no object of unsupported type and [flat] has
    the [demand m] elements it takes, the tail being the rest and the
    restored value a [good] one; the [IndexError] of [flat[0]], which for a
    model without such an object means that [flat] is too short; the
    [TypeError] of the source only when there is such an object; and nothing
    else. *)
Definition outcome (good : pyval -> Prop) (m : pyval) (flat : list pyval)
    (o : result (pyval * list pyval)) : Prop :=
  match o with
  | Ok (r, tl) =>
      meets_unsupported m = false /\ demand m <= length flat
      /\ tl = skipn (demand m) flat /\ good r
  | Raise IndexError => meets_unsupported m = false -> length flat < demand m
  | Raise (TypeError msg) =>
      msg = unsupported_type /\ meets_unsupported m = true
  | Raise _ => False
  end.

(** The same for the generator run over the items [xs] from the tail [flat]
    and the flag [b]. *)
Definition gen_outcome (good : pyval -> Prop) (xs flat : list pyval) (b : bool)
    (o : result (list pyval * Unflattener)) : Prop :=
  match o with
  | Ok (rs, u) =>
      existsb meets_unsupported xs = false
      /\ list_sum (map demand xs) <= length flat
      /\ uf_flat u = skipn (list_sum (map demand xs)) flat
      /\ Forall good rs
      /\ encountered_variable u = (existsb is_Variable rs || b)
  | Raise IndexError =>
      existsb meets_unsupported xs = false ->
      length flat < list_sum (map demand xs)
  | Raise (TypeError msg) =>
      msg = unsupported_type /\ existsb meets_unsupported xs = true
  | Raise _ => False
  end.


(** ** Programs and the queue *)

(** [appends m]: [m] leaves what is queued in place and adds its operations
    behind it; what it adds and how it ends do not depend on the queue. *)
Definition appends {A} (m : Prog A) : Prop :=
  forall q, m q = (fst (m []), q ++ snd (m [])).

(** The wires an operation acts on. *)
Definition wires_of (wires : wires_arg) : list wire :=
  match wires with
  | WireSeq ws => ws
  | WireOne w => [w]
  end.

Definition operation_wires (op : operation) : list wire :=
  match op with
  | Rotation _ wires => wires_of wires
  | Beamsplitter _ _ wires => wires_of wires
  end.

(** [keeps P Q m]: started on a queue whose operations all satisfy [P], the
    program [m] ends on such a queue, and the value it returns, when it
    returns, satisfies [Q]. *)
Definition keeps {A} (P : operation -> Prop) (Q : A -> Prop) (m : Prog A)
  : Prop :=
  forall q, Forall P q ->
    Forall P (snd (m q)) /\ (forall a, fst (m q) = Ok a -> Q a).

(** The operation acts on wires of [w] only. *)
Definition on_wires (w : list wire) (op : operation) : Prop :=
  incl (operation_wires op) w.

(** ** The other templates of [layers.py] *)

(** The operations the other templates queue: the three-angle rotation
    [Rot], the imprimitive gate (an operation class handed over as an
    argument and called with two wires, named here by its class), and the
    continuous-variable gates.  An operation queued by [Interferometer] is
    carried as it is. *)
Inductive gate : Type :=
| MeshOp (op : operation)
| Rot (phi theta omega : pyval) (wires : wires_arg)
| Imprimitive (cls : string) (wires : wires_arg)
| Squeezing (r phi : pyval) (wires : wires_arg)
| Displacement (a phi : pyval) (wires : wires_arg)
| Kerr (kappa : pyval) (wires : wires_arg).

(** The default of the [imprimitive] argument. *)
Definition CNOT : string := "CNOT".

(** Programs over a queue of gates, like [Prog] over the queue of the
    interferometer's operations. *)
Definition Template (A : Type) : Type :=
  list gate -> result A * list gate.

Definition tret {A} (a : A) : Template A := fun q => (Ok a, q).

Definition traise {A} (e : exn) : Template A := fun q => (Raise e, q).

Definition tbind {A B} (m : Template A) (k : A -> Template B) : Template B :=
  fun q =>
    match m q with
    | (Ok a, q') => k a q'
    | (Raise e, q') => (Raise e, q')
    end.

Notation "x <~ m ;; k" := (tbind m (fun x => k))
  (at level 61, m at next level, right associativity).
Notation "m ~;; k" := (tbind m (fun _ => k))
  (at level 61, right associativity).

Definition apply_gate (g : gate) : Template unit :=
  fun q => (Ok tt, q ++ [g]).

Definition tgetitem {A} (xs : list A) (i : nat) : Template A :=
  match nth_error xs i with
  | Some x => tret x
  | None => traise IndexError
  end.

(** [weights[i, j]] on a two-dimensional array, given by its rows. *)
Definition tgetitem2 {A} (rows : list (list A)) (i j : nat) : Template A :=
  row <~ tgetitem rows i ;; tgetitem row j.

Fixpoint tfor_each {A S} (xs : list A) (body : A -> S -> Template S) (s : S)
  : Template S :=
  match xs with
  | [] => tret s
  | x :: xs' => s' <~ body x s ;; tfor_each xs' body s'
  end.

(** A call of a template of the interferometer's kind: it leaves the queue
    in place and adds its operations behind it, which is how [Interferometer]
    itself treats its queue. *)
Definition call {A} (m : Prog A) : Template A :=
  fun q => let (r, ops) := m [] in (r, q ++ map MeshOp ops).

Definition not_iterable : string := "'int' object is not iterable".

(** [enumerate(wires)]: the wires must be a sequence; a bare label is not
    iterable. *)
Definition enumerate_wires (wires : wires_arg) : Template (list (nat * wire)) :=
  match wires with
  | WireSeq ws => tret (enumerate ws)
  | WireOne _ => traise (TypeError not_iterable)
  end.

Definition no_len : string := "object of type 'int' has no len()".

(** [len(wires)] *)
Definition len_wires (wires : wires_arg) : Template nat :=
  match wires with
  | WireSeq ws => tret (length ws)
  | WireOne _ => traise (TypeError no_len)
  end.

Definition not_subscriptable : string := "'int' object is not subscriptable".

(** [wires[i]] for an index that is not negative. *)
Definition wires_getitem (wires : wires_arg) (i : nat) : Template wire :=
  match wires with
  | WireSeq ws => tgetitem ws i
  | WireOne _ => traise (TypeError not_subscriptable)
  end.

Definition StronglyEntanglingLayer (weights : list (list pyval))
    (periodic : bool) (r : Z) (imprimitive : string) (wires : wires_arg)
  : Template unit :=
  items <~ enumerate_wires wires ;;
  tfor_each items (fun '(i, wire) _ =>
    a <~ tgetitem2 weights i 0 ;;
    b <~ tgetitem2 weights i 1 ;;
    c <~ tgetitem2 weights i 2 ;;
    apply_gate (Rot a b c (WireOne wire))) tt ~;;
  num_wires <~ len_wires wires ;;
  tfor_each (if periodic then range (Z.of_nat num_wires)
             else range (Z.of_nat num_wires - 1))
    (fun i _ =>
       wi <~ wires_getitem wires i ;;
       wj <~ wires_getitem wires
               (Z.to_nat ((Z.of_nat i + r) mod Z.of_nat num_wires)) ;;
       apply_gate (Imprimitive imprimitive (WireSeq [wi; wj]))) tt.

(** [ranges] is [None] or a sequence of integers; [zip] stops at the shorter
    of its two arguments. *)
Definition StronglyEntanglingLayers (weights : list (list (list pyval)))
    (periodic : bool) (ranges : option (list Z)) (imprimitive : string)
    (wires : wires_arg) : Template unit :=
  let ranges := match ranges with
                | None => repeat 1%Z (length weights)
                | Some rs => rs
                end in
  tfor_each (combine weights ranges) (fun '(block_weights, block_range) _ =>
    StronglyEntanglingLayer block_weights periodic block_range imprimitive
      wires) tt.

Definition CVNeuralNetLayer
    (theta_1 phi_1 varphi_1 r phi_r theta_2 phi_2 varphi_2 a phi_a k
       : list pyval)
    (wires : wires_arg) : Template unit :=
  call (Interferometer theta_1 phi_1 varphi_1 wires default_mesh
          default_beamsplitter) ~;;
  items <~ enumerate_wires wires ;;
  tfor_each items (fun '(i, wire) _ =>
    ri <~ tgetitem r i ;;
    pri <~ tgetitem phi_r i ;;
    apply_gate (Squeezing ri pri (WireOne wire))) tt ~;;
  call (Interferometer theta_2 phi_2 varphi_2 wires default_mesh
          default_beamsplitter) ~;;
  items <~ enumerate_wires wires ;;
  tfor_each items (fun '(i, wire) _ =>
    ai <~ tgetitem a i ;;
    pai <~ tgetitem phi_a i ;;
    apply_gate (Displacement ai pai (WireOne wire))) tt ~;;
  items <~ enumerate_wires wires ;;
  tfor_each items (fun '(i, wire) _ =>
    ki <~ tgetitem k i ;;
    apply_gate (Kerr ki (WireOne wire))) tt.

Definition CVNeuralNetLayers
    (theta_1 phi_1 varphi_1 r phi_r theta_2 phi_2 varphi_2 a phi_a k
       : list (list pyval))
    (wires : wires_arg) : Template unit :=
  let n_layers := length theta_1 in
  tfor_each (range (Z.of_nat n_layers)) (fun l _ =>
    t1 <~ tgetitem theta_1 l ;;
    p1 <~ tgetitem phi_1 l ;;
    v1 <~ tgetitem varphi_1 l ;;
    rl <~ tgetitem r l ;;
    prl <~ tgetitem phi_r l ;;
    t2 <~ tgetitem theta_2 l ;;
    p2 <~ tgetitem phi_2 l ;;
    v2 <~ tgetitem varphi_2 l ;;
    al <~ tgetitem a l ;;
    pal <~ tgetitem phi_a l ;;
    kl <~ tgetitem k l ;;
    CVNeuralNetLayer t1 p1 v1 rl prl t2 p2 v2 al pal kl wires) tt.

(** ** What the other templates queue *)

(** One [Rot] per wire, with the three entries of the wire's row of
    [weights] and the wire as a bare label. *)
Definition rot_gates (weights : list (list pyval)) (ws : list wire)
  : list gate :=
  map (fun '(i, wire) =>
         Rot (nth 0 (nth i weights []) NoneVal)
             (nth 1 (nth i weights []) NoneVal)
             (nth 2 (nth i weights []) NoneVal) (WireOne wire))
      (enumerate ws).

(** The position the imprimitive gate of position [i] points at. *)
Definition target (N : nat) (r : Z) (i : nat) : nat :=
  Z.to_nat ((Z.of_nat i + r) mod Z.of_nat N).

(** One imprimitive gate per position, the last position left out when the
    block is not periodic. *)
Definition imprimitive_gates (cls : string) (periodic : bool) (r : Z)
    (ws : list wire) : list gate :=
  map (fun i => Imprimitive cls
                  (WireSeq [nth i ws 0; nth (target (length ws) r i) ws 0]))
      (seq 0 (if periodic then length ws else length ws - 1)).

(** The rows of [weights] that a block on [N] wires reads are there and have
    three entries. *)
Definition block_shape (N : nat) (weights : list (list pyval)) : Prop :=
  N <= length weights
  /\ Forall (fun row => 3 <= length row) (firstn N weights).

(** The wires of a two-wire gate are two different wires. *)
Definition distinct_wires (g : gate) : Prop :=
  match g with
  | Imprimitive _ wires => NoDup (wires_of wires)
  | _ => True
  end.

(** One single-wire gate per wire, built from the position and the wire. *)
Definition per_wire (mk : nat -> wire -> gate) (ws : list wire) : list gate :=
  map (fun '(i, wire) => mk i wire) (enumerate ws).

(** What the interferometer of a network layer adds to the queue. *)
Definition mesh_gates (theta phi varphi : list pyval) (ws : list wire)
  : list gate :=
  map MeshOp
    (schedule default_beamsplitter theta phi ws
       (concat (spec_rect_layers (length ws))) 0
     ++ rotations varphi ws).

(** The blocks a strongly entangling circuit runs: the blocks of weights
    paired with their ranges, all 1 when no ranges are given, as far as both
    go. *)
Definition zipped_blocks (weights : list (list (list pyval)))
    (ranges : option (list Z)) : list (list (list pyval) * Z) :=
  combine weights
    (match ranges with
     | None => repeat 1%Z (length weights)
     | Some rs => rs
     end).



(** * Properties of the codec *)

Lemma dtype_eqb_eq a b : dtype_eqb a b = true -> a = b.
Proof. destruct a, b; simpl; congruence. Qed.

Lemma supported_array_item dt c :
  array_item dt supported c = true -> supported c = true.
Proof.
  destruct c; simpl; try congruence; auto.
  intros H. apply andb_prop in H. apply H.
Qed.

Lemma forallb_forall_In {A} (f : A -> bool) xs :
  forallb f xs = true -> forall x, In x xs -> f x = true.
Proof. intros H x Hx. rewrite forallb_forall in H. auto. Qed.

Lemma supported_items_of_array dt xs :
  forallb (array_item dt supported) xs = true ->
  forall x, In x xs -> supported x = true.
Proof.
  intros H x Hx. apply supported_array_item with (dt := dt).
  eapply forallb_forall_In; eassumption.
Qed.

(** ** The claims about the codec *)

(** C1 (round trip).  The empty list is a supported model whose flattened
    form is the empty sequence, and restoring that against the empty list
    returns the empty tuple: the container kind is lost. *)
Theorem roundtrip_empty_list :
  supported (PyList []) = true
  /\ _flatten (PyList []) = []
  /\ unflatten (_flatten (PyList [])) (PyList []) = Ok (PyTuple [])
  /\ unflatten (_flatten (PyList [])) (PyList []) <> Ok (PyList []).
Proof. repeat split. discriminate. Qed.

(** C7 (mismatch detection).  An array of shape [(0,)] has no leaf, yet
    [unflatten] takes one element for it: a flat sequence with one element
    more than the leaf count is accepted, and the sequence of the right
    length starves. *)
Theorem mismatch_empty_array :
  supported (NdArray float64 []) = true
  /\ leaf_count (NdArray float64 []) = 0
  /\ unflatten [Num 5] (NdArray float64 []) = Ok (NdArray0 float64 (Num 5))
  /\ unflatten [] (NdArray float64 []) = Raise IndexError.
Proof. repeat split. Qed.

(** C8 (symbolic promotion).  In a two-dimensional model the items the
    outer array restores are its rows, never [Variable]s: its generator
    ends with the flag down and the element type of the model is chosen,
    although the only leaf is a [Variable].  numpy is then asked to store
    that [Variable] under [float64] and raises a [TypeError]: no array comes
    back, of the generic type or of any other.  The one-dimensional model
    with the same leaf is restored as an array of the generic type. *)
Theorem promotion_nested_array :
  (exists rows u,
     Unflattener_gen _unflatten [NdArray float64 [Num 1]]
       (mkUnflattener [Var 0] false) = Ok (rows, u)
     /\ encountered_variable u = false
     /\ Unflattener_dtype u float64 = float64)
  /\ (exists msg,
        _unflatten [Var 0] (NdArray float64 [NdArray float64 [Num 1]])
        = Raise (TypeError msg))
  /\ (forall r tl,
        _unflatten [Var 0] (NdArray float64 [NdArray float64 [Num 1]])
        <> Ok (r, tl))
  /\ (exists items,
        _unflatten [Var 0] (NdArray float64 [Num 1])
        = Ok (NdArray object_ items, [])
        /\ length items = 1).
Proof.
  split; [|split; [|split]].
  - eexists _, _. split; [reflexivity|]. now split.
  - eexists. reflexivity.
  - intros r tl. discriminate.
  - eexists. split; reflexivity.
Qed.

(** C9 (zero-length case).  For an empty list as the model nothing is
    taken from the flat sequence, but what is returned is the empty tuple,
    not an empty list; for an array of shape [(0,)] one element is taken and
    an array of shape [()] returned. *)
Theorem zero_length_other_containers :
  (forall flat, _unflatten flat (PyList []) = Ok (PyTuple [], flat))
  /\ PyTuple [] <> PyList []
  /\ (forall tl,
        _unflatten (Num 5 :: tl) (NdArray float64 [])
        = Ok (NdArray0 float64 (Num 5), tl)).
Proof. repeat split. discriminate. Qed.




(** * Properties of the interferometer *)

Lemma schedule_app bs theta phi w ks1 ks2 n :
  schedule bs theta phi w (ks1 ++ ks2) n
  = schedule bs theta phi w ks1 n
    ++ schedule bs theta phi w ks2 (n + length ks1).
Proof.
  revert n. induction ks1 as [|k ks1 IH]; intros n; simpl.
  - now rewrite Nat.add_0_r.
  - rewrite IH, <- app_assoc. do 3 f_equal. lia.
Qed.

Lemma getitem_nth {A} (xs : list A) i d q :
  i < length xs -> getitem xs i q = (Ok (nth i xs d), q).
Proof.
  intros H. unfold getitem. now rewrite (nth_error_nth' xs d H).
Qed.

(** ** The loops *)

Lemma zip_adjacent (w : list wire) :
  combine (removelast w) (tl w)
  = map (fun k => (nth k w 0, nth (S k) w 0)) (seq 0 (length w - 1)).
Proof.
  induction w as [|a [|b w] IH]; try reflexivity.
  change (combine (removelast (a :: b :: w)) (tl (a :: b :: w)))
    with ((a, b) :: combine (removelast (b :: w)) (tl (b :: w))).
  rewrite IH.
  replace (length (a :: b :: w) - 1) with (S (length (b :: w) - 1))
    by (simpl; lia).
  cbn [seq map]. f_equal.
  rewrite <- seq_shift, map_map. reflexivity.
Qed.

Lemma enumerate_map_seq {A} (f : nat -> A) m :
  enumerate (map f (seq 0 m)) = map (fun k => (k, f k)) (seq 0 m).
Proof.
  unfold enumerate. rewrite length_map, length_seq.
  generalize 0 as a. induction m as [|m IH]; intros a; simpl.
  - reflexivity.
  - now rewrite IH.
Qed.

Lemma coupling_rect bs theta phi w1 w2 n q :
  n < length theta -> n < length phi ->
  (if selector_eqb bs "clements" then
     p <- getitem phi n ;;
     queue (Rotation p (WireSeq [w1])) ;;;
     t <- getitem theta n ;;
     queue (Beamsplitter t (Num 0) (WireSeq [w1; w2]))
   else
     t <- getitem theta n ;;
     p <- getitem phi n ;;
     queue (Beamsplitter t p (WireSeq [w1; w2]))) q
  = (Ok tt, q ++ coupling_ops bs (nth n theta NoneVal) (nth n phi NoneVal)
                              w1 w2).
Proof.
  intros Ht Hp. unfold coupling_ops, bind, queue.
  destruct (selector_eqb bs "clements").
  - rewrite (getitem_nth phi NoneVal q Hp).
    rewrite (getitem_nth theta NoneVal _ Ht).
    now rewrite <- app_assoc.
  - rewrite (getitem_nth theta NoneVal q Ht).
    rewrite (getitem_nth phi NoneVal q Hp). reflexivity.
Qed.

Lemma rect_layer_run bs theta phi w l ks :
  forall n q,
    n + length (filter (included l) ks) <= length theta ->
    n + length (filter (included l) ks) <= length phi ->
    for_each (map (fun k => (k, (nth k w 0, nth (S k) w 0))) ks)
      (fun '(k, (w1, w2)) n =>
         if negb ((l + k) mod 2 =? 1) then
           (if selector_eqb bs "clements" then
              p <- getitem phi n ;;
              queue (Rotation p (WireSeq [w1])) ;;;
              t <- getitem theta n ;;
              queue (Beamsplitter t (Num 0) (WireSeq [w1; w2]))
            else
              t <- getitem theta n ;;
              p <- getitem phi n ;;
              queue (Beamsplitter t p (WireSeq [w1; w2]))) ;;;
           ret (n + 1)
         else ret n) n q
    = (Ok (n + length (filter (included l) ks)),
       q ++ schedule bs theta phi w (filter (included l) ks) n).
Proof.
  induction ks as [|k ks IH]; intros n q Ht Hp;
    cbn [map for_each filter] in *.
  - unfold ret. cbn [length schedule]. now rewrite Nat.add_0_r, app_nil_r.
  - unfold included in Ht, Hp |- *. unfold bind at 1.
    destruct (negb ((l + k) mod 2 =? 1)); cbn [length schedule] in *.
    + unfold bind at 1. rewrite coupling_rect by lia.
      unfold ret at 1. fold (included l) in *. rewrite IH by lia.
      rewrite <- app_assoc. do 2 f_equal; try lia.
      do 2 f_equal. lia.
    + unfold ret at 1. fold (included l) in *. now rewrite IH.
Qed.

(** An outer loop whose body, for the layer [l], emits the schedule of the
    pair indices [g l]. *)
Lemma layers_run bs theta phi w (g : nat -> list nat)
    (body : nat -> nat -> Prog nat) ls :
  (forall l n q, In l ls ->
     n + length (g l) <= length theta -> n + length (g l) <= length phi ->
     body l n q
     = (Ok (n + length (g l)), q ++ schedule bs theta phi w (g l) n)) ->
  forall n q,
    n + length (concat (map g ls)) <= length theta ->
    n + length (concat (map g ls)) <= length phi ->
    for_each ls body n q
    = (Ok (n + length (concat (map g ls))),
       q ++ schedule bs theta phi w (concat (map g ls)) n).
Proof.
  induction ls as [|l ls IH]; intros Hbody n q Ht Hp; simpl in *.
  - unfold ret. now rewrite Nat.add_0_r, app_nil_r.
  - rewrite length_app in *. unfold bind.
    rewrite Hbody by (auto; lia).
    rewrite IH by (auto; lia).
    rewrite schedule_app, <- app_assoc. do 2 f_equal. lia.
Qed.

Lemma rectangular_mesh_run bs theta phi w :
  length (concat (spec_rect_layers (length w))) <= length theta ->
  length (concat (spec_rect_layers (length w))) <= length phi ->
  forall q,
    rectangular_mesh theta phi w bs (length w) 0 q
    = (Ok (length (concat (spec_rect_layers (length w)))),
       q ++ schedule bs theta phi w (concat (spec_rect_layers (length w))) 0).
Proof.
  intros Ht Hp q. unfold rectangular_mesh, range.
  rewrite Nat2Z.id, zip_adjacent, enumerate_map_seq.
  unfold spec_rect_layers in *.
  apply (layers_run bs theta phi w (spec_rect_layer (length w))); auto.
  intros l n q' _ Ht' Hp'. unfold spec_rect_layer in *.
  now apply rect_layer_run.
Qed.

Lemma range3_nil start stop :
  (stop <= start)%Z -> range3 start stop 2 = [].
Proof.
  intros H. unfold range3.
  replace (Z.to_nat ((stop - start + 2 - 1) / 2)) with 0 by div_lia.
  reflexivity.
Qed.

Lemma range3_cons start stop :
  (0 <= start < stop)%Z ->
  range3 start stop 2 = Z.to_nat start :: range3 (start + 2) stop 2.
Proof.
  intros H. unfold range3.
  replace (Z.to_nat ((stop - start + 2 - 1) / 2))
    with (S (Z.to_nat ((stop - (start + 2) + 2 - 1) / 2))) by div_lia.
  cbn [seq map]. f_equal.
  - f_equal. lia.
  - rewrite <- seq_shift, map_map. apply map_ext. intros i. f_equal. lia.
Qed.

Lemma range3_stepping fuel :
  forall s t, t <= s + 2 * fuel ->
    range3 (Z.of_nat s) (Z.of_nat t) 2 = stepping fuel s t.
Proof.
  induction fuel as [|fuel IH]; intros s t H; cbn [stepping].
  - apply range3_nil. lia.
  - destruct (Nat.ltb_spec s t) as [Hlt|Hge].
    + rewrite range3_cons by lia. rewrite Nat2Z.id. f_equal.
      replace (Z.of_nat s + 2)%Z with (Z.of_nat (s + 2)) by lia.
      apply IH. lia.
    + apply range3_nil. lia.
Qed.

Lemma tri_layer_spec N l :
  1 <= N ->
  range3 (Z.abs (Z.of_nat l + 1 - (Z.of_nat N - 1))) (Z.of_nat N - 1) 2
  = spec_tri_layer N l.
Proof.
  intros HN. unfold spec_tri_layer, spec_tri_start.
  rewrite <- range3_stepping by lia. f_equal; lia.
Qed.

Lemma stepping_below fuel :
  forall s t k, In k (stepping fuel s t) -> s <= k < t.
Proof.
  induction fuel as [|fuel IH]; intros s t k H; cbn [stepping] in H.
  - destruct H.
  - destruct (Nat.ltb_spec s t) as [Hlt|Hge]; [|destruct H].
    destruct H as [<-|H]; [lia|]. apply IH in H. lia.
Qed.

Lemma coupling_tri bs theta phi w k n q :
  S k < length w -> n < length theta -> n < length phi ->
  (if selector_eqb bs "clements" then
     p <- getitem phi n ;;
     wk <- getitem w k ;;
     queue (Rotation p (WireSeq [wk])) ;;;
     t <- getitem theta n ;;
     wk <- getitem w k ;;
     wk1 <- getitem w (k + 1) ;;
     queue (Beamsplitter t (Num 0) (WireSeq [wk; wk1]))
   else
     t <- getitem theta n ;;
     p <- getitem phi n ;;
     wk <- getitem w k ;;
     wk1 <- getitem w (k + 1) ;;
     queue (Beamsplitter t p (WireSeq [wk; wk1]))) q
  = (Ok tt, q ++ coupling_ops bs (nth n theta NoneVal) (nth n phi NoneVal)
                              (nth k w 0) (nth (S k) w 0)).
Proof.
  intros Hk Ht Hp.
  assert (Hk0 : k < length w) by lia.
  assert (Hk1 : k + 1 < length w) by lia.
  unfold coupling_ops, bind, queue.
  replace (S k) with (k + 1) by lia.
  destruct (selector_eqb bs "clements").
  - rewrite (getitem_nth phi NoneVal q Hp).
    rewrite (getitem_nth w 0 q Hk0).
    rewrite (getitem_nth theta NoneVal _ Ht).
    rewrite (getitem_nth w 0 _ Hk0).
    rewrite (getitem_nth w 0 _ Hk1).
    now rewrite <- app_assoc.
  - rewrite (getitem_nth theta NoneVal q Ht).
    rewrite (getitem_nth phi NoneVal q Hp).
    rewrite (getitem_nth w 0 q Hk0).
    rewrite (getitem_nth w 0 _ Hk1). reflexivity.
Qed.

Lemma tri_layer_run bs theta phi w ks :
  Forall (fun k => S k < length w) ks ->
  forall n q,
    n + length ks <= length theta ->
    n + length ks <= length phi ->
    for_each ks
      (fun k n =>
         (if selector_eqb bs "clements" then
            p <- getitem phi n ;;
            wk <- getitem w k ;;
            queue (Rotation p (WireSeq [wk])) ;;;
            t <- getitem theta n ;;
            wk <- getitem w k ;;
            wk1 <- getitem w (k + 1) ;;
            queue (Beamsplitter t (Num 0) (WireSeq [wk; wk1]))
          else
            t <- getitem theta n ;;
            p <- getitem phi n ;;
            wk <- getitem w k ;;
            wk1 <- getitem w (k + 1) ;;
            queue (Beamsplitter t p (WireSeq [wk; wk1]))) ;;;
         ret (n + 1)) n q
    = (Ok (n + length ks), q ++ schedule bs theta phi w ks n).
Proof.
  induction 1 as [|k ks Hk _ IH]; intros n q Ht Hp;
    cbn [for_each length schedule] in *.
  - unfold ret. now rewrite Nat.add_0_r, app_nil_r.
  - unfold bind at 1. unfold bind at 1.
    rewrite coupling_tri by lia.
    unfold ret at 1. rewrite IH by lia.
    rewrite <- app_assoc. do 2 f_equal; try lia.
    do 2 f_equal. lia.
Qed.

Lemma triangular_mesh_run bs theta phi w :
  1 <= length w ->
  length (concat (spec_tri_layers (length w))) <= length theta ->
  length (concat (spec_tri_layers (length w))) <= length phi ->
  forall q,
    triangular_mesh theta phi w bs (length w) 0 q
    = (Ok (length (concat (spec_tri_layers (length w)))),
       q ++ schedule bs theta phi w (concat (spec_tri_layers (length w))) 0).
Proof.
  intros HN Ht Hp q. unfold triangular_mesh, range.
  replace (Z.to_nat (2 * Z.of_nat (length w) - 3))
    with (2 * length w - 3) by lia.
  unfold spec_tri_layers in *.
  apply (layers_run bs theta phi w (spec_tri_layer (length w))); auto.
  intros l n q' _ Ht' Hp'. rewrite tri_layer_spec by assumption.
  apply tri_layer_run; [|assumption|assumption].
  rewrite Forall_forall. intros k Hk.
  apply stepping_below in Hk. lia.
Qed.

Lemma rotations_from varphi w :
  forall a q, a + length varphi <= length w ->
    for_each (combine (seq a (length varphi)) varphi)
      (fun '(i, p) _ =>
         wi <- getitem w i ;; queue (Rotation p (WireSeq [wi]))) tt q
    = (Ok tt,
       q ++ map (fun '(i, p) => Rotation p (WireSeq [nth i w 0]))
                (combine (seq a (length varphi)) varphi)).
Proof.
  induction varphi as [|p ps IH]; intros a q H;
    cbn [length seq combine map for_each] in *.
  - unfold ret. now rewrite app_nil_r.
  - unfold bind at 1. unfold bind at 1.
    rewrite (@getitem_nth _ w a 0 q) by lia.
    unfold queue at 1. rewrite IH by lia.
    now rewrite <- app_assoc.
Qed.

Lemma final_rotations_run varphi w q :
  length varphi <= length w ->
  final_rotations varphi w q = (Ok tt, q ++ rotations varphi w).
Proof.
  intros H. unfold final_rotations, rotations, enumerate.
  now apply rotations_from.
Qed.

(** ** Counting the pairs *)

Lemma length_concat_map {A} (g : A -> list nat) ls :
  length (concat (map g ls)) = list_sum (map (fun l => length (g l)) ls).
Proof.
  induction ls as [|l ls IH]; simpl; [reflexivity|].
  now rewrite length_app, IH.
Qed.

Lemma rect_layer_length l m :
  length (filter (included l) (seq 0 m)) = (m + (1 - l mod 2)) / 2.
Proof.
  induction m as [|m IH].
  - cbn [seq filter length]. div_lia.
  - rewrite seq_S, filter_app, length_app, IH. cbn [filter Nat.add].
    unfold included.
    destruct (Nat.eqb_spec ((l + m) mod 2) 1); cbn [negb length]; div_lia.
Qed.

Lemma list_sum_single x : list_sum [x] = x.
Proof. simpl. lia. Qed.

Lemma list_sum_cons x xs : list_sum (x :: xs) = x + list_sum xs.
Proof. reflexivity. Qed.

Lemma rect_sum m n :
  list_sum (map (fun l => (m + (1 - l mod 2)) / 2) (seq 0 n))
  = (n / 2) * m + (n mod 2) * ((m + 1) / 2).
Proof.
  induction n as [|n IH].
  - reflexivity.
  - rewrite seq_S, map_app, list_sum_app, IH. cbn [map Nat.add].
    rewrite list_sum_single.
    assert (E : exists a r, n = 2 * a + r /\ r < 2).
    { exists (n / 2), (n mod 2). div_lia. }
    destruct E as (a & r & -> & Hr).
    assert (Hr' : r = 0 \/ r = 1) by lia.
    destruct Hr' as [-> | ->].
    + replace ((2 * a + 0) / 2) with a by div_lia.
      replace ((2 * a + 0) mod 2) with 0 by div_lia.
      replace (S (2 * a + 0) / 2) with a by div_lia.
      replace (S (2 * a + 0) mod 2) with 1 by div_lia.
      div_lia.
    + replace ((2 * a + 1) / 2) with a by div_lia.
      replace ((2 * a + 1) mod 2) with 1 by div_lia.
      replace (S (2 * a + 1) / 2) with (a + 1) by div_lia.
      replace (S (2 * a + 1) mod 2) with 0 by div_lia.
      div_lia.
Qed.

Lemma half_product N :
  (N / 2) * (N - 1) + (N mod 2) * (N / 2) = N * (N - 1) / 2.
Proof.
  assert (E : exists a r, N = 2 * a + r /\ r < 2).
  { exists (N / 2), (N mod 2). div_lia. }
  destruct E as (a & r & -> & Hr).
  assert (Hr' : r = 0 \/ r = 1) by lia.
  destruct Hr' as [-> | ->].
  - replace ((2 * a + 0) / 2) with a by div_lia.
    replace ((2 * a + 0) mod 2) with 0 by div_lia.
    apply Nat.div_unique with (r := 0); nia.
  - replace ((2 * a + 1) / 2) with a by div_lia.
    replace ((2 * a + 1) mod 2) with 1 by div_lia.
    apply Nat.div_unique with (r := 0); nia.
Qed.

Lemma rect_count N :
  length (concat (spec_rect_layers N)) = N * (N - 1) / 2.
Proof.
  unfold spec_rect_layers. rewrite length_concat_map.
  unfold spec_rect_layer.
  rewrite (map_ext _ (fun l => (N - 1 + (1 - l mod 2)) / 2))
    by (intros l; apply rect_layer_length).
  rewrite rect_sum, <- half_product.
  destruct N as [|N]; [reflexivity|].
  replace (S N - 1 + 1) with (S N) by lia. reflexivity.
Qed.

Lemma stepping_length fuel s t :
  t <= s + 2 * fuel -> length (stepping fuel s t) = (t - s + 1) / 2.
Proof.
  intros H. rewrite <- range3_stepping by assumption.
  unfold range3. rewrite length_map, length_seq. div_lia.
Qed.

Lemma map_seq_from {A} (f : nat -> A) a k :
  map f (seq a k) = map (fun i => f (a + i)) (seq 0 k).
Proof.
  revert a. induction k as [|k IH]; intros a; cbn [seq map].
  - reflexivity.
  - rewrite Nat.add_0_r. f_equal.
    rewrite IH, <- seq_shift, map_map.
    apply map_ext. intros i. f_equal. lia.
Qed.

Lemma tri_sum m :
  (list_sum (map (fun l => (l + 2) / 2) (seq 0 m))
   + list_sum (map (fun i => (m + 2 - i) / 2) (seq 0 (S m)))) * 2
  = (m + 2) * (m + 1).
Proof.
  induction m as [|m IH].
  - reflexivity.
  - rewrite seq_S, map_app, list_sum_app. cbn [map Nat.add].
    rewrite list_sum_single.
    change (seq 0 (S (S m))) with (0 :: seq 1 (S m)).
    rewrite <- seq_shift. cbn [map list_sum]. rewrite map_map.
    rewrite (map_ext (fun i => (S m + 2 - S i) / 2)
                     (fun i => (m + 2 - i) / 2))
      by (intros i; f_equal; lia).
    rewrite list_sum_cons.
    remember (list_sum (map (fun l => (l + 2) / 2) (seq 0 m))) as A.
    remember (list_sum (map (fun i => (m + 2 - i) / 2) (seq 0 (S m)))) as B.
    assert (E : (m + 2) / 2 + (S (m + 2) - 0) / 2 = m + 2) by div_lia.
    nia.
Qed.

Lemma tri_count N :
  2 <= N -> length (concat (spec_tri_layers N)) = N * (N - 1) / 2.
Proof.
  intros HN. destruct N as [|[|m]]; try lia. clear HN.
  unfold spec_tri_layers. rewrite length_concat_map.
  replace (2 * S (S m) - 3) with (m + S m) by lia.
  rewrite seq_app, map_app, list_sum_app. cbn [Nat.add].
  assert (E1 : map (fun l => length (spec_tri_layer (S (S m)) l)) (seq 0 m)
               = map (fun l => (l + 2) / 2) (seq 0 m)).
  { apply map_ext_in. intros l Hl. apply in_seq in Hl.
    unfold spec_tri_layer. rewrite stepping_length by lia.
    unfold spec_tri_start. div_lia. }
  assert (E2 : map (fun l => length (spec_tri_layer (S (S m)) l))
                   (seq m (S m))
               = map (fun i => (m + 2 - i) / 2) (seq 0 (S m))).
  { rewrite map_seq_from. apply map_ext_in. intros i Hi. apply in_seq in Hi.
    unfold spec_tri_layer. rewrite stepping_length by lia.
    unfold spec_tri_start. div_lia. }
  rewrite E1, E2.
  apply Nat.div_unique with (r := 0); [lia|].
  pose proof (tri_sum m) as E. nia.
Qed.

(** ** The whole template *)

Lemma interferometer_run theta phi varphi ws mesh bs q :
  2 <= length ws ->
  selector_is_Variable mesh = false ->
  selector_is_Variable bs = false ->
  length (concat (mesh_layers mesh (length ws))) <= length theta ->
  length (concat (mesh_layers mesh (length ws))) <= length phi ->
  length varphi <= length ws ->
  Interferometer theta phi varphi (WireSeq ws) mesh bs q
  = (Ok tt,
     q ++ schedule bs theta phi ws (concat (mesh_layers mesh (length ws))) 0
       ++ rotations varphi ws).
Proof.
  intros HN Hm Hb Ht Hp Hv. unfold Interferometer, mesh_layers in *.
  rewrite Hm, Hb.
  destruct (Nat.eqb_spec (length ws) 1) as [E|_]; [lia|].
  unfold bind.
  destruct (selector_eqb mesh "rectangular").
  - rewrite rectangular_mesh_run by assumption.
    rewrite final_rotations_run by assumption. now rewrite <- app_assoc.
  - destruct (selector_eqb mesh "triangular").
    + rewrite triangular_mesh_run by (assumption || lia).
      rewrite final_rotations_run by assumption. now rewrite <- app_assoc.
    + unfold ret. rewrite final_rotations_run by assumption.
      cbn [concat schedule app]. reflexivity.
Qed.

Lemma mesh_count mesh N :
  2 <= N -> mesh = Str "rectangular" \/ mesh = Str "triangular" ->
  length (concat (mesh_layers mesh N)) = N * (N - 1) / 2.
Proof.
  intros HN [-> | ->]; unfold mesh_layers; cbn [selector_eqb].
  - change (String.eqb "rectangular" "rectangular") with true.
    apply rect_count.
  - change (String.eqb "triangular" "rectangular") with false.
    change (String.eqb "triangular" "triangular") with true.
    cbv iota. now apply tri_count.
Qed.

Lemma mesh_pairs_valid mesh N k :
  In k (concat (mesh_layers mesh N)) -> S k < N.
Proof.
  unfold mesh_layers. intros H. apply in_concat in H.
  destruct H as (layer & Hlayer & Hk).
  destruct (selector_eqb mesh "rectangular").
  - unfold spec_rect_layers in Hlayer. apply in_map_iff in Hlayer.
    destruct Hlayer as (l & <- & _). unfold spec_rect_layer in Hk.
    apply filter_In in Hk. destruct Hk as [Hk _]. apply in_seq in Hk. lia.
  - destruct (selector_eqb mesh "triangular"); [|destruct Hlayer].
    unfold spec_tri_layers in Hlayer. apply in_map_iff in Hlayer.
    destruct Hlayer as (l & <- & _). unfold spec_tri_layer in Hk.
    apply stepping_below in Hk. lia.
Qed.

(** The schedule, slot by slot. *)
Lemma schedule_slots bs theta phi w ks :
  forall n,
    schedule bs theta phi w ks n
    = flat_map (fun '(j, k) =>
                  coupling_ops bs (nth j theta NoneVal) (nth j phi NoneVal)
                               (nth k w 0) (nth (S k) w 0))
               (combine (seq n (length ks)) ks).
Proof.
  induction ks as [|k ks IH]; intros n; cbn [schedule length seq combine flat_map].
  - reflexivity.
  - now rewrite IH.
Qed.

Lemma count_Beamsplitter_app xs ys :
  count_Beamsplitter (xs ++ ys) = count_Beamsplitter xs + count_Beamsplitter ys.
Proof. unfold count_Beamsplitter. now rewrite filter_app, length_app. Qed.

Lemma count_Beamsplitter_schedule bs theta phi w ks :
  forall n, count_Beamsplitter (schedule bs theta phi w ks n) = length ks.
Proof.
  induction ks as [|k ks IH]; intros n; cbn [schedule length].
  - reflexivity.
  - rewrite count_Beamsplitter_app, IH. unfold coupling_ops.
    destruct (selector_eqb bs "clements"); reflexivity.
Qed.

Lemma count_Beamsplitter_rotations varphi w :
  count_Beamsplitter (rotations varphi w) = 0.
Proof.
  unfold rotations, count_Beamsplitter.
  induction (enumerate varphi) as [|[i p] xs IH]; simpl; auto.
Qed.

(** ** The claims about the interferometer *)

(** C2 (coupling count).  For [N >= 2] wires and either mesh, with [theta]
    and [phi] of length [N(N-1)/2], the template runs to its end and queues,
    after what was queued before, one coupling per slot [0 .. N(N-1)/2 - 1]
    (reading [theta] and [phi] at that slot) and then the final rotations:
    exactly [N(N-1)/2] [Beamsplitter] operations, each on the wires at two
    distinct positions [k] and [k + 1] below [N]. *)
Theorem coupling_count theta phi varphi ws mesh bs q :
  2 <= length ws ->
  mesh = Str "rectangular" \/ mesh = Str "triangular" ->
  selector_is_Variable bs = false ->
  length theta = length ws * (length ws - 1) / 2 ->
  length phi = length ws * (length ws - 1) / 2 ->
  length varphi <= length ws ->
  exists ks,
    length ks = length ws * (length ws - 1) / 2
    /\ Forall (fun k => k < length ws /\ S k < length ws /\ k <> S k) ks
    /\ Interferometer theta phi varphi (WireSeq ws) mesh bs q
       = (Ok tt,
          q ++ flat_map (fun '(n, k) =>
                  coupling_ops bs (nth n theta NoneVal) (nth n phi NoneVal)
                               (nth k ws 0) (nth (S k) ws 0))
                 (combine (seq 0 (length ws * (length ws - 1) / 2)) ks)
            ++ rotations varphi ws)
    /\ count_Beamsplitter
         (flat_map (fun '(n, k) =>
                  coupling_ops bs (nth n theta NoneVal) (nth n phi NoneVal)
                               (nth k ws 0) (nth (S k) ws 0))
                 (combine (seq 0 (length ws * (length ws - 1) / 2)) ks)
            ++ rotations varphi ws)
       = length ws * (length ws - 1) / 2.
Proof.
  intros HN Hmesh Hb Ht Hp Hv.
  pose proof (mesh_count HN Hmesh) as Hcount.
  exists (concat (mesh_layers mesh (length ws))).
  split; [assumption|]. split.
  { rewrite Forall_forall. intros k Hk. apply mesh_pairs_valid in Hk. lia. }
  rewrite <- Hcount at 1 2. rewrite <- !schedule_slots. split.
  - apply interferometer_run; try assumption; try lia.
    destruct Hmesh as [-> | ->]; reflexivity.
  - rewrite count_Beamsplitter_app, count_Beamsplitter_schedule,
      count_Beamsplitter_rotations. lia.
Qed.

Lemma coupling_count_witness :
  exists ks,
    length ks = 3
    /\ Forall (fun k => k < 3 /\ S k < 3 /\ k <> S k) ks
    /\ Interferometer (sym 100 3) (sym 200 3) (sym 300 3)
         (WireSeq [10; 11; 12]) (Str "triangular") (Str "clements") []
       = (Ok tt,
          [] ++ flat_map (fun '(n, k) =>
                  coupling_ops (Str "clements")
                    (nth n (sym 100 3) NoneVal) (nth n (sym 200 3) NoneVal)
                    (nth k [10; 11; 12] 0) (nth (S k) [10; 11; 12] 0))
                 (combine (seq 0 3) ks)
            ++ rotations (sym 300 3) [10; 11; 12])
    /\ count_Beamsplitter
         (flat_map (fun '(n, k) =>
                  coupling_ops (Str "clements")
                    (nth n (sym 100 3) NoneVal) (nth n (sym 200 3) NoneVal)
                    (nth k [10; 11; 12] 0) (nth (S k) [10; 11; 12] 0))
                 (combine (seq 0 3) ks)
            ++ rotations (sym 300 3) [10; 11; 12])
       = 3.
Proof.
  apply (@coupling_count (sym 100 3) (sym 200 3) (sym 300 3) [10; 11; 12]
           (Str "triangular") (Str "clements") []).
  - simpl. lia.
  - right. reflexivity.
  - reflexivity.
  - reflexivity.
  - reflexivity.
  - simpl. lia.
Defined.

Lemma included_alternates l k :
  included l k = true -> included l (S k) = false.
Proof.
  unfold included.
  destruct (Nat.eqb_spec ((l + k) mod 2) 1);
    destruct (Nat.eqb_spec ((l + S k) mod 2) 1);
    cbn [negb]; try congruence.
  intros _. exfalso. div_lia.
Qed.

Lemma rect_layer_disjoint l m :
  forall a,
    NoDup (flat_map (fun k => [k; S k]) (filter (included l) (seq a m))).
Proof.
  induction m as [|m IH]; intros a; cbn [seq filter].
  - constructor.
  - destruct (included l a) eqn:E; [|apply IH].
    cbn [flat_map app].
    assert (Hin : forall x,
              In x (flat_map (fun k => [k; S k])
                      (filter (included l) (seq (S a) m))) ->
              exists k, S a <= k /\ included l k = true
                        /\ (x = k \/ x = S k)).
    { intros x Hx. apply in_flat_map in Hx. destruct Hx as (k & Hk & Hx).
      apply filter_In in Hk. destruct Hk as [Hk Hinc]. apply in_seq in Hk.
      exists k. repeat split; [lia|assumption|].
      destruct Hx as [<-|[<-|[]]]; auto. }
    constructor; [|constructor; [|apply IH]].
    + intros [H|H]; [lia|].
      apply Hin in H. destruct H as (k & Hk & _ & [-> | ->]); lia.
    + intros H. apply Hin in H. destruct H as (k & Hk & Hinc & Hx).
      assert (k = S a) by lia. subst k.
      rewrite (included_alternates _ _ E) in Hinc. discriminate.
Qed.

(** C3 (rectangular mesh).  With [mesh='rectangular'] and [N >= 2] wires
    the template queues the couplings of the layers [l = 0 .. N-1] one layer
    after the other, slots counted in that order; the layer [l] holds, in
    increasing order, the pair indices [k < N - 1] with [(l + k) mod 2 <> 1],
    and no position is used twice within a layer.  For [N = 4] the layers are
    [[0;2]], [[1]], [[0;2]], [[1]]: six couplings. *)
Theorem rectangular_schedule theta phi varphi ws bs q :
  2 <= length ws ->
  selector_is_Variable bs = false ->
  length ws * (length ws - 1) / 2 <= length theta ->
  length ws * (length ws - 1) / 2 <= length phi ->
  length varphi <= length ws ->
  Interferometer theta phi varphi (WireSeq ws) (Str "rectangular") bs q
  = (Ok tt,
     q ++ schedule bs theta phi ws (concat (spec_rect_layers (length ws))) 0
       ++ rotations varphi ws)
  /\ spec_rect_layers (length ws)
     = map (fun l => filter (fun k => negb ((l + k) mod 2 =? 1))
                            (seq 0 (length ws - 1)))
           (seq 0 (length ws))
  /\ (forall l k, In k (spec_rect_layer (length ws) l)
                  <-> k < length ws - 1 /\ (l + k) mod 2 <> 1)
  /\ (forall layer, In layer (spec_rect_layers (length ws)) ->
                    NoDup (flat_map (fun k => [k; S k]) layer))
  /\ spec_rect_layers 4 = [[0; 2]; [1]; [0; 2]; [1]]
  /\ length (concat (spec_rect_layers 4)) = 6.
Proof.
  intros HN Hb Ht Hp Hv. repeat split.
  - change (spec_rect_layers (length ws))
      with (mesh_layers (Str "rectangular") (length ws)).
    apply interferometer_run; try assumption; try reflexivity;
      rewrite mesh_count; auto.
  - unfold spec_rect_layer in H. apply filter_In in H.
    destruct H as [H _]. apply in_seq in H. lia.
  - unfold spec_rect_layer in H. apply filter_In in H.
    destruct H as [_ H]. unfold included in H.
    destruct (Nat.eqb_spec ((l + k) mod 2) 1); [discriminate|assumption].
  - intros [Hk Hmod]. unfold spec_rect_layer. apply filter_In. split.
    + apply in_seq. lia.
    + unfold included.
      destruct (Nat.eqb_spec ((l + k) mod 2) 1); [contradiction|reflexivity].
  - intros layer Hlayer. unfold spec_rect_layers in Hlayer.
    apply in_map_iff in Hlayer. destruct Hlayer as (l & <- & _).
    apply rect_layer_disjoint.
Qed.

Lemma rectangular_schedule_witness :
  Interferometer (sym 100 6) (sym 200 6) (sym 300 4)
    (WireSeq [10; 11; 12; 13]) (Str "rectangular") (Str "pennylane") []
  = (Ok tt,
     [] ++ schedule (Str "pennylane") (sym 100 6) (sym 200 6) [10; 11; 12; 13]
             (concat (spec_rect_layers 4)) 0
        ++ rotations (sym 300 4) [10; 11; 12; 13]).
Proof.
  apply (@rectangular_schedule (sym 100 6) (sym 200 6) (sym 300 4)
           [10; 11; 12; 13] (Str "pennylane") []).
  - simpl. lia.
  - reflexivity.
  - simpl. lia.
  - simpl. lia.
  - simpl. lia.
Defined.

Lemma stepping_In fuel :
  forall s t k, t <= s + 2 * fuel ->
    (In k (stepping fuel s t) <-> (exists i, k = s + 2 * i) /\ k < t).
Proof.
  induction fuel as [|fuel IH]; intros s t k Hfuel; cbn [stepping].
  - split; [intros []|]. intros [[i ->] Hlt]. lia.
  - destruct (Nat.ltb_spec s t) as [Hlt|Hge].
    + cbn [In]. rewrite IH by lia. split.
      * intros [<-|[[i ->] Hk]].
        -- split; [exists 0; lia|assumption].
        -- split; [exists (S i); lia|assumption].
      * intros [[[|i] ->] Hk].
        -- left. lia.
        -- right. split; [exists i; lia|assumption].
    + split; [intros []|]. intros [[i ->] Hk]. lia.
Qed.

(** C4 (triangular mesh).  With [mesh='triangular'] and [N >= 2] wires the
    template queues the couplings of the layers [l = 0 .. 2N-4] one layer
    after the other, slots counted in that order; the layer [l] holds the
    pair indices [|l + 1 - (N - 1)|], that plus 2, and so on, as long as they
    are below [N - 1]. *)
Theorem triangular_schedule theta phi varphi ws bs q :
  2 <= length ws ->
  selector_is_Variable bs = false ->
  length ws * (length ws - 1) / 2 <= length theta ->
  length ws * (length ws - 1) / 2 <= length phi ->
  length varphi <= length ws ->
  Interferometer theta phi varphi (WireSeq ws) (Str "triangular") bs q
  = (Ok tt,
     q ++ schedule bs theta phi ws (concat (spec_tri_layers (length ws))) 0
       ++ rotations varphi ws)
  /\ spec_tri_layers (length ws)
     = map (spec_tri_layer (length ws)) (seq 0 (2 * length ws - 3))
  /\ (forall l k,
        In k (spec_tri_layer (length ws) l)
        <-> (exists i,
               Z.of_nat k
               = (Z.abs (Z.of_nat l + 1 - (Z.of_nat (length ws) - 1))
                  + 2 * Z.of_nat i)%Z)
            /\ k < length ws - 1).
Proof.
  intros HN Hb Ht Hp Hv. split; [|split; [reflexivity|]].
  - change (spec_tri_layers (length ws))
      with (mesh_layers (Str "triangular") (length ws)).
    apply interferometer_run; try assumption; try reflexivity;
      rewrite mesh_count; auto.
  - intros l k. unfold spec_tri_layer. rewrite stepping_In by lia.
    unfold spec_tri_start. split.
    + intros [[i ->] Hk]. split; [exists i; lia|assumption].
    + intros [[i Hi] Hk]. split; [exists i; lia|assumption].
Qed.

Lemma triangular_schedule_witness :
  Interferometer (sym 100 6) (sym 200 6) (sym 300 3)
    (WireSeq [10; 11; 12; 13]) (Str "triangular") (Str "pennylane") []
  = (Ok tt,
     [] ++ schedule (Str "pennylane") (sym 100 6) (sym 200 6) [10; 11; 12; 13]
             (concat (spec_tri_layers 4)) 0
        ++ rotations (sym 300 3) [10; 11; 12; 13]).
Proof.
  apply (@triangular_schedule (sym 100 6) (sym 200 6) (sym 300 3)
           [10; 11; 12; 13] (Str "pennylane") []).
  - simpl. lia.
  - reflexivity.
  - simpl. lia.
  - simpl. lia.
  - simpl. lia.
Defined.

Example triangular_layers_4 :
  spec_tri_layers 4 = [[2]; [1]; [0; 2]; [1]; [2]].
Proof. reflexivity. Qed.

Lemma schedule_split theta phi w ks :
  forall n,
    schedule (Str "clements") theta phi w ks n
    = flat_map (fun '(j, k) =>
                  [Rotation (nth j phi NoneVal) (WireSeq [nth k w 0]);
                   Beamsplitter (nth j theta NoneVal) (Num 0)
                                (WireSeq [nth k w 0; nth (S k) w 0])])
               (combine (seq n (length ks)) ks).
Proof. intros n. apply schedule_slots. Qed.

Lemma schedule_fused bs theta phi w ks :
  selector_eqb bs "clements" = false ->
  forall n,
    schedule bs theta phi w ks n
    = map (fun '(j, k) =>
             Beamsplitter (nth j theta NoneVal) (nth j phi NoneVal)
                          (WireSeq [nth k w 0; nth (S k) w 0]))
          (combine (seq n (length ks)) ks).
Proof.
  intros Hbs. induction ks as [|k ks IH]; intros n;
    cbn [schedule length seq combine map].
  - reflexivity.
  - rewrite IH. unfold coupling_ops. now rewrite Hbs.
Qed.

(** C5 (coupling conventions).  In both meshes the couplings are those of
    the layers of the mesh, one slot each in scan order, [N (N - 1) / 2] of
    them.  With [beamsplitter='clements'] every coupling is the rotation of
    the pair's first wire by the slot's [phi] followed by the beamsplitter
    with the slot's [theta] and the phase 0; with any other text, the default
    ['pennylane'] included, it is the beamsplitter alone with the slot's
    [theta] and [phi]. *)
Theorem coupling_conventions theta phi varphi ws mesh q :
  2 <= length ws ->
  mesh = Str "rectangular" \/ mesh = Str "triangular" ->
  length ws * (length ws - 1) / 2 <= length theta ->
  length ws * (length ws - 1) / 2 <= length phi ->
  length varphi <= length ws ->
  Interferometer theta phi varphi (WireSeq ws) mesh (Str "clements") q
  = (Ok tt,
     q ++ flat_map (fun '(n, k) =>
             [Rotation (nth n phi NoneVal) (WireSeq [nth k ws 0]);
              Beamsplitter (nth n theta NoneVal) (Num 0)
                           (WireSeq [nth k ws 0; nth (S k) ws 0])])
            (enumerate (concat (mesh_layers mesh (length ws))))
       ++ rotations varphi ws)
  /\ (forall bs,
        selector_is_Variable bs = false ->
        selector_eqb bs "clements" = false ->
        Interferometer theta phi varphi (WireSeq ws) mesh bs q
        = (Ok tt,
           q ++ map (fun '(n, k) =>
                   Beamsplitter (nth n theta NoneVal) (nth n phi NoneVal)
                                (WireSeq [nth k ws 0; nth (S k) ws 0]))
                  (enumerate (concat (mesh_layers mesh (length ws))))
             ++ rotations varphi ws))
  /\ length (enumerate (concat (mesh_layers mesh (length ws))))
     = length ws * (length ws - 1) / 2
  /\ selector_is_Variable default_beamsplitter = false
  /\ selector_eqb default_beamsplitter "clements" = false.
Proof.
  intros HN Hmesh Ht Hp Hv.
  pose proof (mesh_count HN Hmesh) as Hcount.
  assert (Hm : selector_is_Variable mesh = false)
    by (destruct Hmesh as [-> | ->]; reflexivity).
  unfold enumerate. repeat split.
  - rewrite <- schedule_split.
    apply interferometer_run; try assumption; try reflexivity; lia.
  - intros bs Hvar Hbs. rewrite <- (schedule_fused _ _ _ _ _ Hbs).
    apply interferometer_run; try assumption; lia.
  - rewrite length_combine, length_seq, Hcount. lia.
Qed.

Lemma coupling_conventions_witness :
  Interferometer (sym 100 3) (sym 200 3) (sym 300 3)
    (WireSeq [10; 11; 12]) (Str "rectangular") (Str "clements") []
  = (Ok tt,
     [] ++ flat_map (fun '(n, k) =>
             [Rotation (nth n (sym 200 3) NoneVal)
                       (WireSeq [nth k [10; 11; 12] 0]);
              Beamsplitter (nth n (sym 100 3) NoneVal) (Num 0)
                (WireSeq [nth k [10; 11; 12] 0; nth (S k) [10; 11; 12] 0])])
            (enumerate (concat (mesh_layers (Str "rectangular")
                                  (length [10; 11; 12]))))
       ++ rotations (sym 300 3) [10; 11; 12])
  /\ (forall bs,
        selector_is_Variable bs = false ->
        selector_eqb bs "clements" = false ->
        Interferometer (sym 100 3) (sym 200 3) (sym 300 3)
          (WireSeq [10; 11; 12]) (Str "rectangular") bs []
        = (Ok tt,
           [] ++ map (fun '(n, k) =>
                   Beamsplitter (nth n (sym 100 3) NoneVal)
                     (nth n (sym 200 3) NoneVal)
                     (WireSeq [nth k [10; 11; 12] 0;
                               nth (S k) [10; 11; 12] 0]))
                  (enumerate (concat (mesh_layers (Str "rectangular")
                                        (length [10; 11; 12]))))
             ++ rotations (sym 300 3) [10; 11; 12]))
  /\ length (enumerate (concat (mesh_layers (Str "rectangular")
                                  (length [10; 11; 12]))))
     = length [10; 11; 12] * (length [10; 11; 12] - 1) / 2
  /\ selector_is_Variable default_beamsplitter = false
  /\ selector_eqb default_beamsplitter "clements" = false.
Proof.
  apply (@coupling_conventions (sym 100 3) (sym 200 3) (sym 300 3)
           [10; 11; 12] (Str "rectangular") []).
  - simpl. lia.
  - left. reflexivity.
  - simpl. lia.
  - simpl. lia.
  - simpl. lia.
Defined.

(** C6 (configuration rejection).  A [Variable] passed as [beamsplitter], or
    as [mesh] with a text for [beamsplitter], makes the template raise
    [QuantumFunctionError] with the message of the source and leave the queue
    as it found it, whatever the wires, one wire included (where the
    template with its default texts queues the single rotation). *)
Theorem symbolic_selector_rejected :
  (forall theta phi varphi wires mesh idx q,
     Interferometer theta phi varphi wires mesh (SymVar idx) q
     = (Raise (QuantumFunctionError beamsplitter_msg), q))
  /\ (forall theta phi varphi wires idx s q,
        Interferometer theta phi varphi wires (SymVar idx) (Str s) q
        = (Raise (QuantumFunctionError mesh_msg), q))
  /\ Interferometer [] [] [Num 1] (WireOne 0) (SymVar 0) default_beamsplitter []
     = (Raise (QuantumFunctionError mesh_msg), [])
  /\ Interferometer [] [] [Num 1] (WireSeq [0]) default_mesh default_beamsplitter
       []
     = (Ok tt, [Rotation (Num 1) (WireOne 0)]).
Proof. repeat split. Qed.

(** * Further properties of the codec *)

(** ** What [_flatten] yields *)

Lemma leaves_app xs ys : leaves xs -> leaves ys -> leaves (xs ++ ys).
Proof. intros H1 H2. apply Forall_app. now split. Qed.

Lemma leaves_flat_map (f : pyval -> list pyval) xs :
  Forall (fun x => leaves (f x)) xs -> leaves (flat_map f xs).
Proof.
  induction 1 as [|x xs Hx _ IH]; simpl.
  - constructor.
  - now apply leaves_app.
Qed.

Lemma flatten_yields_leaves x : leaves (_flatten x).
Proof.
  induction x using pyval_nested_ind; simpl;
    try (repeat constructor; fail);
    try (apply leaves_flat_map; assumption).
  assumption.
Qed.

(** [_flatten] yields numbers, [Variable]s and other objects that are not
    containers, never a list, a tuple or an array. *)
Theorem _flatten_leaves x : leaves (_flatten x).
Proof. apply flatten_yields_leaves. Qed.

Lemma flat_map_leaves flat :
  leaves flat -> flat_map _flatten flat = flat.
Proof.
  induction 1 as [|x xs Hx _ IH]; simpl; [reflexivity|].
  rewrite IH. destruct x; try discriminate; reflexivity.
Qed.

(** Flattening is idempotent: the flattened form of a value, taken as a
    list, as a tuple or as an array, flattens to itself. *)
Theorem _flatten_idempotent x :
  _flatten (PyList (_flatten x)) = _flatten x
  /\ _flatten (PyTuple (_flatten x)) = _flatten x
  /\ (forall dt, _flatten (NdArray dt (_flatten x)) = _flatten x).
Proof.
  pose proof (flat_map_leaves (flatten_yields_leaves x)) as H.
  repeat split; simpl; auto.
Qed.

(** ** What [np.array] returns *)



Lemma np_array_numeric rs dt :
  forallb numeric rs = true -> np_array rs dt = Ok (NdArray dt rs).
Proof. intros H. unfold np_array. now rewrite H, orb_true_r. Qed.

Lemma np_array0_numeric x dt :
  numeric x = true -> np_array0 x dt = Ok (NdArray0 dt x).
Proof. intros H. unfold np_array0. now rewrite H, orb_true_r. Qed.

(** ** Nothing is lost and nothing is made up *)









(** ** One-dimensional arrays *)

Lemma gen_scalars xs :
  forallb is_scalar xs = true ->
  forall flat b, length xs <= length flat ->
    Unflattener_gen _unflatten xs (mkUnflattener flat b)
    = Ok (firstn (length xs) flat,
          mkUnflattener (skipn (length xs) flat)
            (existsb is_Variable (firstn (length xs) flat) || b)).
Proof.
  induction xs as [|x xs IH]; intros Hs flat b Hlen;
    cbn [Unflattener_gen length firstn skipn existsb forallb uf_flat
         encountered_variable] in *.
  - reflexivity.
  - apply andb_prop in Hs. destruct Hs as [Hx Hs].
    destruct flat as [|y flat]; [simpl in Hlen; lia|].
    assert (E : _unflatten (y :: flat) x = Ok (y, flat))
      by (destruct x; try discriminate; reflexivity).
    rewrite E, IH by (auto; simpl in Hlen; lia).
    cbn [firstn skipn existsb]. do 3 f_equal.
    destruct (is_Variable y); cbn [orb].
    + now rewrite orb_true_r.
    + reflexivity.
Qed.

Lemma plain_firstn n flat : plain flat -> plain (firstn n flat).
Proof.
  intros H. rewrite <- (firstn_skipn n flat) in H.
  apply Forall_app in H. apply H.
Qed.

Lemma plain_skipn n flat : plain flat -> plain (skipn n flat).
Proof.
  intros H. rewrite <- (firstn_skipn n flat) in H.
  apply Forall_app in H. apply H.
Qed.

(** Numbers and [Variable]s without a [Variable] are numbers. *)
Lemma plain_numeric rs :
  plain rs -> existsb is_Variable rs = false -> forallb numeric rs = true.
Proof.
  induction 1 as [|r rs Hr _ IH]; cbn [existsb forallb]; [reflexivity|].
  intros H. apply orb_false_elim in H. destruct H as [Hv Hvs].
  rewrite (IH Hvs). destruct r; try discriminate; reflexivity.
Qed.

(** What [np.array] is given for a one-dimensional array of scalars, it
    takes. *)
Lemma np_array_plain rs dt :
  plain rs ->
  np_array rs (if existsb is_Variable rs then object_ else dt)
  = Ok (NdArray (if existsb is_Variable rs then object_ else dt) rs).
Proof.
  intros H. destruct (existsb is_Variable rs) eqn:E.
  - reflexivity.
  - now apply np_array_numeric, plain_numeric.
Qed.

(** A one-dimensional array of [n > 0] scalars takes the first [n] elements
    of a flat sequence of numbers and [Variable]s and leaves the rest as the
    tail; it has [n] items and is built with the generic element type
    exactly when one of the elements taken is a [Variable], and with the
    element type of the model otherwise. *)
Theorem rank1_promotion dt xs flat :
  xs <> [] ->
  forallb is_scalar xs = true ->
  length xs <= length flat ->
  plain flat ->
  exists items,
    _unflatten flat (NdArray dt xs)
    = Ok (NdArray (if existsb is_Variable (firstn (length xs) flat)
                   then object_ else dt)
                  items,
          skipn (length xs) flat)
    /\ length items = length xs.
Proof.
  intros Hne Hs Hlen Hp. destruct xs as [|x xs]; [congruence|].
  exists (firstn (length (x :: xs)) flat). split.
  - cbn [_unflatten]. rewrite (gen_scalars _ Hs) by assumption.
    cbn [rbind]. unfold Unflattener_dtype.
    cbn [encountered_variable uf_flat]. rewrite orb_false_r.
    rewrite np_array_plain by now apply plain_firstn.
    reflexivity.
  - rewrite length_firstn. lia.
Qed.

Lemma rank1_promotion_witness :
  exists items,
    _unflatten [Num 7; Var 0; Num 9] (NdArray float64 [Num 1; Num 2])
    = Ok (NdArray (if existsb is_Variable
                        (firstn (length [Num 1; Num 2]) [Num 7; Var 0; Num 9])
                   then object_ else float64)
                  items,
          skipn (length [Num 1; Num 2]) [Num 7; Var 0; Num 9])
    /\ length items = length [Num 1; Num 2].
Proof.
  apply (@rank1_promotion float64 [Num 1; Num 2] [Num 7; Var 0; Num 9]).
  - discriminate.
  - reflexivity.
  - simpl. lia.
  - repeat constructor.
Defined.

(** ** How restoring ends *)

Section restoring.
Variable pre : list pyval -> Prop.
Variable good : pyval -> Prop.
Hypothesis pre_skipn : forall n flat, pre flat -> pre (skipn n flat).

Lemma gen_restoring xs :
  Forall (fun x => forall flat,
            pre flat -> outcome good x flat (_unflatten flat x)) xs ->
  forall flat b, pre flat ->
    gen_outcome good xs flat b
      (Unflattener_gen _unflatten xs (mkUnflattener flat b)).
Proof.
  induction 1 as [|x xs Hx _ IH]; intros flat b Hpre;
    cbn [Unflattener_gen uf_flat encountered_variable].
  - cbn [gen_outcome existsb map list_sum fold_right skipn uf_flat
         encountered_variable orb].
    repeat split; auto. lia.
  - specialize (Hx flat Hpre).
    destruct (_unflatten flat x) as [[res tl]|e]; cbn [outcome] in Hx.
    + destruct Hx as (Hm & Hd & -> & Hg).
      specialize (IH (skipn (demand x) flat)
                     (if is_Variable res then true else b)
                     (pre_skipn _ Hpre)).
      destruct (Unflattener_gen _unflatten xs _) as [[rs u]|e];
        cbn [gen_outcome existsb map] in *;
        change (list_sum (demand x :: map demand xs))
          with (demand x + list_sum (map demand xs));
        rewrite ?length_skipn in IH.
      * destruct IH as (Hms & Hds & Htl & Hgs & Hfl).
        rewrite Hm, Hms, Htl, skipn_skipn, Hfl.
        rewrite (Nat.add_comm (list_sum (map demand xs))).
        repeat split; auto; try lia.
        destruct (is_Variable res); cbn [orb]; [apply orb_true_r|reflexivity].
      * rewrite Hm. cbn [orb].
        destruct e; auto. intros Hex. specialize (IH Hex). lia.
    + cbn [gen_outcome existsb map].
      change (list_sum (demand x :: map demand xs))
        with (demand x + list_sum (map demand xs)).
      destruct e; auto.
      * intros Hex. apply orb_false_elim in Hex. destruct Hex as [Hm _].
        specialize (Hx Hm). lia.
      * destruct Hx as [-> Hm]. rewrite Hm. now split.
Qed.

(** A list or a tuple of nonzero length. *)
Lemma sequence_restoring (K : list pyval -> pyval) m xs flat o :
  meets_unsupported m = existsb meets_unsupported xs ->
  demand m = list_sum (map demand xs) ->
  (forall rs, Forall good rs -> good (K rs)) ->
  gen_outcome good xs flat false o ->
  outcome good m flat (rbind o (fun '(rs, u) => Ok (K rs, uf_flat u))).
Proof.
  intros Hm Hd HK Ho. destruct o as [[rs u]|e];
    cbn [rbind outcome gen_outcome] in *; rewrite Hm, Hd.
  - destruct Ho as (Hms & Hds & Htl & Hgs & _). repeat split; auto.
  - exact Ho.
Qed.

(** An array of nonzero length whose items [np.array] takes. *)
Lemma array_restoring dt xs flat o :
  xs <> [] ->
  gen_outcome good xs flat false o ->
  (forall rs u,
     o = Ok (rs, u) ->
     np_array rs (Unflattener_dtype u dt)
     = Ok (NdArray (Unflattener_dtype u dt) rs)
     /\ good (NdArray (Unflattener_dtype u dt) rs)) ->
  outcome good (NdArray dt xs) flat
    (rbind o (fun '(rs, u) =>
                rbind (np_array rs (Unflattener_dtype u dt))
                  (fun a => Ok (a, uf_flat u)))).
Proof.
  intros Hne Ho Hnp. destruct xs as [|y ys]; [congruence|].
  destruct o as [[rs u]|e];
    cbn [rbind outcome gen_outcome meets_unsupported demand] in *.
  - destruct (Hnp rs u eq_refl) as [-> Hg]. cbn [rbind].
    destruct Ho as (Hms & Hds & Htl & _). repeat split; auto.
  - exact Ho.
Qed.

(** An array of shape [()], or one with [shape[0] == 0], whose item
    [np.array] takes. *)
Lemma rank0_restoring dt m flat :
  meets_unsupported m = false -> demand m = 1 ->
  (forall x tl,
     flat = x :: tl ->
     np_array0 x dt = Ok (NdArray0 dt x) /\ good (NdArray0 dt x)) ->
  outcome good m flat
    (rbind (pop_front flat)
       (fun '(x, tl) => rbind (np_array0 x dt) (fun a => Ok (a, tl)))).
Proof.
  intros Hm Hd Hnp. destruct flat as [|x tl];
    cbn [pop_front rbind outcome]; rewrite ?Hd.
  - intros _. simpl. lia.
  - destruct (Hnp x tl eq_refl) as [-> Hg]. cbn [rbind outcome]. rewrite Hd.
    repeat split; auto. simpl. lia.
Qed.

Lemma leaf_restoring m flat :
  is_scalar m = true ->
  (forall x tl, flat = x :: tl -> good x) ->
  outcome good m flat (pop_front flat).
Proof.
  intros Hs Hg.
  assert (Hm : meets_unsupported m = false /\ demand m = 1)
    by (destruct m; try discriminate; now split).
  destruct Hm as [Hm Hd].
  destruct flat as [|x tl]; cbn [pop_front outcome]; rewrite ?Hd.
  - intros _. simpl. lia.
  - repeat split; eauto. simpl. lia.
Qed.

End restoring.

Lemma outcome_weaken (good good' : pyval -> Prop) m flat o :
  (forall r, good r -> good' r) ->
  outcome good m flat o -> outcome good' m flat o.
Proof.
  intros Hg. destruct o as [[r tl]|e]; cbn [outcome]; [|auto].
  intros (Hm & Hd & Htl & Hr). repeat split; auto.
Qed.

Lemma is_Num_skipn n flat :
  forallb is_Num flat = true -> forallb is_Num (skipn n flat) = true.
Proof.
  intros H. rewrite <- (firstn_skipn n flat), forallb_app in H.
  apply andb_prop in H. apply H.
Qed.

Lemma Forall_forallb {A} (f : A -> bool) xs :
  Forall (fun x => f x = true) xs -> forallb f xs = true.
Proof. intros H. apply forallb_forall. now apply Forall_forall. Qed.

(** From a flat sequence of numbers, every array is one numpy builds, and
    what is restored holds numbers only. *)
Lemma restoring_numbers m :
  forall flat, forallb is_Num flat = true ->
    outcome (fun r => numeric r = true) m flat (_unflatten flat m).
Proof.
  induction m as [x|i| |xs IH|xs IH|dt x IH|dt xs IH]
    using pyval_nested_ind; intros flat Hn; cbn [_unflatten].
  - apply leaf_restoring; [reflexivity|].
    intros y tl ->. simpl in Hn. apply andb_prop in Hn.
    destruct y; try (destruct Hn; discriminate); reflexivity.
  - apply leaf_restoring; [reflexivity|].
    intros y tl ->. simpl in Hn. apply andb_prop in Hn.
    destruct y; try (destruct Hn; discriminate); reflexivity.
  - now split.
  - destruct xs as [|y ys].
    + cbn. repeat split; auto; lia.
    + apply sequence_restoring with (K := PyList) (xs := y :: ys);
        try reflexivity.
      * intros rs Hrs. cbn [numeric]. now apply Forall_forallb.
      * now apply gen_restoring with (pre := fun l => forallb is_Num l = true);
          [apply is_Num_skipn| |].
  - destruct xs as [|y ys].
    + cbn. repeat split; auto; lia.
    + apply sequence_restoring with (K := PyTuple) (xs := y :: ys);
        try reflexivity.
      * intros rs Hrs. cbn [numeric]. now apply Forall_forallb.
      * now apply gen_restoring with (pre := fun l => forallb is_Num l = true);
          [apply is_Num_skipn| |].
  - apply rank0_restoring; try reflexivity.
    intros y tl ->. simpl in Hn. apply andb_prop in Hn. destruct Hn as [Hy _].
    assert (numeric y = true) by (destruct y; try discriminate; reflexivity).
    split; [now apply np_array0_numeric|assumption].
  - destruct xs as [|y ys].
    + apply rank0_restoring; try reflexivity.
      intros z tl ->. simpl in Hn. apply andb_prop in Hn.
      destruct Hn as [Hz _].
      assert (numeric z = true) by (destruct z; try discriminate; reflexivity).
      split; [now apply np_array0_numeric|assumption].
    + apply array_restoring; [discriminate| |].
      * now apply gen_restoring with (pre := fun l => forallb is_Num l = true);
          [apply is_Num_skipn| |].
      * intros rs u E.
        pose proof (@gen_restoring (fun l => forallb is_Num l = true)
                      (fun r => numeric r = true) is_Num_skipn
                      (y :: ys) IH flat false Hn) as G.
        rewrite E in G. cbn [gen_outcome] in G.
        destruct G as (_ & _ & _ & Hrs & _).
        apply Forall_forallb in Hrs.
        split; [now apply np_array_numeric|exact Hrs].
Qed.

Lemma safe_items (P : pyval -> Prop) xs :
  Forall (fun x => symbolic_safe x = true -> no_empty_array x = true -> P x)
         xs ->
  forallb symbolic_safe xs = true ->
  forallb no_empty_array xs = true ->
  Forall P xs.
Proof.
  intros IH Hs Ha. rewrite Forall_forall in *. intros x Hx.
  apply IH; auto; eapply forallb_forall_In; eassumption.
Qed.

Lemma demand_scalars xs :
  forallb is_scalar xs = true -> list_sum (map demand xs) = length xs.
Proof.
  induction xs as [|x xs IH]; cbn [forallb map length]; [reflexivity|].
  intros H. apply andb_prop in H. destruct H as [Hx Hxs].
  change (list_sum (demand x :: map demand xs))
    with (demand x + list_sum (map demand xs)).
  rewrite (IH Hxs). destruct x; try discriminate; reflexivity.
Qed.

(** From a flat sequence of numbers and [Variable]s, every array is one
    numpy builds when the arrays of the model have the generic element type
    or are one-dimensional arrays of scalars. *)
Lemma restoring_symbolic m :
  symbolic_safe m = true -> no_empty_array m = true ->
  forall flat, plain flat ->
    outcome (fun _ => True) m flat (_unflatten flat m).
Proof.
  induction m as [x|i| |xs IH|xs IH|dt x IH|dt xs IH]
    using pyval_nested_ind; intros Hs Ha flat Hp;
    cbn [_unflatten symbolic_safe no_empty_array] in *.
  - apply leaf_restoring; auto.
  - apply leaf_restoring; auto.
  - now split.
  - destruct xs as [|y ys].
    + cbn. repeat split; auto; lia.
    + apply sequence_restoring with (K := PyList) (xs := y :: ys);
        try reflexivity; auto.
      apply gen_restoring with (pre := plain); auto using plain_skipn.
      now apply safe_items.
  - destruct xs as [|y ys].
    + cbn. repeat split; auto; lia.
    + apply sequence_restoring with (K := PyTuple) (xs := y :: ys);
        try reflexivity; auto.
      apply gen_restoring with (pre := plain); auto using plain_skipn.
      now apply safe_items.
  - apply dtype_eqb_eq in Hs. subst dt.
    apply rank0_restoring; try reflexivity. intros y tl _. now split.
  - apply andb_prop in Hs. destruct Hs as [Hdt Hs].
    apply andb_prop in Ha. destruct Ha as [Hne Ha].
    destruct xs as [|y ys]; [discriminate|].
    pose proof (@gen_restoring plain (fun _ => True) plain_skipn
                  (y :: ys) (safe_items _ IH Hs Ha) flat false Hp) as G.
    apply array_restoring; [discriminate|exact G|].
    intros rs u E. split; [|exact I].
    apply orb_prop in Hdt. destruct Hdt as [Hdt|Hsc].
    + apply dtype_eqb_eq in Hdt. subst dt. unfold Unflattener_dtype.
      now destruct (encountered_variable u).
    + rewrite E in G. cbn [gen_outcome] in G.
      destruct G as (_ & Hd & _).
      rewrite (demand_scalars _ Hsc) in Hd.
      pose proof (gen_scalars _ Hsc flat false Hd) as E'.
      set (n := length (y :: ys)) in *.
      assert (Hrs : rs = firstn n flat
                    /\ u = mkUnflattener (skipn n flat)
                              (existsb is_Variable (firstn n flat) || false))
        by (rewrite E in E'; now inversion E').
      destruct Hrs as [-> ->]. unfold Unflattener_dtype.
      cbn [encountered_variable]. rewrite orb_false_r.
      apply np_array_plain. now apply plain_firstn.
Qed.

Lemma restoring_outcome flat m :
  plain flat -> buildable flat m ->
  outcome (fun _ => True) m flat (_unflatten flat m).
Proof.
  intros Hp [Hn|[Hs Ha]].
  - apply outcome_weaken with (good := fun r => numeric r = true); [auto|].
    now apply restoring_numbers.
  - now apply restoring_symbolic.
Qed.

(** ** How many elements restoring takes *)

Lemma unflatten_outcome_by_length flat m :
  meets_unsupported m = false ->
  plain flat ->
  buildable flat m ->
  match unflatten flat m with
  | Ok _ => length flat = demand m
  | Raise IndexError => length flat < demand m
  | Raise (ValueError msg) => demand m < length flat /\ msg = more_elements
  | Raise _ => False
  end.
Proof.
  intros Hm Hp Hb. pose proof (restoring_outcome Hp Hb) as H.
  unfold unflatten.
  destruct (_unflatten flat m) as [[r tl]|e]; cbn [outcome] in H.
  - destruct H as (_ & Hd & -> & _). rewrite length_skipn.
    destruct (Nat.eqb_spec (length flat - demand m) 0); cbn [negb];
      [lia|split; [lia|reflexivity]].
  - destruct e; auto; try contradiction. destruct H as [_ H]. congruence.
Qed.

(** The outcome of [unflatten] on a flat sequence of numbers and
    [Variable]s is decided by the length of the sequence alone, for a model
    in which restoring meets no object of unsupported type and whose arrays
    numpy can build: a structure exactly when the length is what the model
    takes (one element per number, [Variable], array of shape [()] and array
    with [shape[0] == 0]), the [IndexError] when it is less and the
    [ValueError] when it is more. *)
Theorem unflatten_by_length flat m :
  meets_unsupported m = false ->
  plain flat ->
  buildable flat m ->
  match unflatten flat m with
  | Ok _ => length flat = demand m
  | Raise IndexError => length flat < demand m
  | Raise (ValueError msg) => demand m < length flat /\ msg = more_elements
  | Raise _ => False
  end.
Proof. intros Hm Hp Hb. now apply unflatten_outcome_by_length. Qed.

Lemma unflatten_by_length_witness :
  match unflatten [Num 1; Num 2; Num 3]
          (PyList [Num 0; NdArray float64 []; PyTuple []]) with
  | Ok _ => 3 = demand (PyList [Num 0; NdArray float64 []; PyTuple []])
  | Raise IndexError =>
      3 < demand (PyList [Num 0; NdArray float64 []; PyTuple []])
  | Raise (ValueError msg) =>
      demand (PyList [Num 0; NdArray float64 []; PyTuple []]) < 3
      /\ msg = more_elements
  | Raise _ => False
  end.
Proof.
  apply (@unflatten_by_length [Num 1; Num 2; Num 3]
           (PyList [Num 0; NdArray float64 []; PyTuple []])).
  - reflexivity.
  - repeat constructor.
  - left. reflexivity.
Defined.

Lemma length_flat_map_sum {A B} (f : A -> list B) xs :
  length (flat_map f xs) = list_sum (map (fun x => length (f x)) xs).
Proof.
  induction xs as [|x xs IH]; simpl; [reflexivity|].
  now rewrite length_app, IH.
Qed.

Lemma demand_items xs :
  Forall (fun x => supported x = true -> no_empty_array x = true ->
                   demand x = leaf_count x) xs ->
  (forall x, In x xs -> supported x = true) ->
  forallb no_empty_array xs = true ->
  list_sum (map demand xs) = length (flat_map _flatten xs).
Proof.
  intros IH Hs Ha. rewrite length_flat_map_sum. f_equal.
  apply map_ext_in. intros x Hx. rewrite Forall_forall in IH.
  apply IH; auto. eapply forallb_forall_In; eassumption.
Qed.

Lemma demand_leaf_count m :
  supported m = true -> no_empty_array m = true -> demand m = leaf_count m.
Proof.
  induction m as [x|i| |xs IH|xs IH|dt x IH|dt xs IH]
    using pyval_nested_ind; intros Hs Ha; unfold leaf_count;
    cbn [demand _flatten supported no_empty_array] in *.
  - reflexivity.
  - reflexivity.
  - discriminate.
  - apply demand_items; auto. now apply forallb_forall_In.
  - apply demand_items; auto. now apply forallb_forall_In.
  - apply andb_prop in Hs. destruct Hs as [Hsc _].
    destruct x; try discriminate; reflexivity.
  - apply andb_prop in Ha. destruct Ha as [Hne Ha].
    destruct xs as [|y ys]; [discriminate|].
    apply demand_items; auto. now apply supported_items_of_array with (dt := dt).
Qed.

Lemma supported_items_unmet xs :
  Forall (fun x => supported x = true -> meets_unsupported x = false) xs ->
  (forall x, In x xs -> supported x = true) ->
  existsb meets_unsupported xs = false.
Proof.
  induction 1 as [|x xs Hx _ IH]; intros Hs; simpl; [reflexivity|].
  rewrite Hx by (apply Hs; now left).
  apply IH. intros y Hy. apply Hs. now right.
Qed.

Lemma supported_unmet m :
  supported m = true -> meets_unsupported m = false.
Proof.
  induction m as [x|i| |xs IH|xs IH|dt x IH|dt xs IH]
    using pyval_nested_ind; intros Hs;
    cbn [meets_unsupported supported] in *; try reflexivity.
  - discriminate.
  - apply supported_items_unmet; auto. now apply forallb_forall_In.
  - apply supported_items_unmet; auto. now apply forallb_forall_In.
  - apply supported_items_unmet; auto.
    now apply supported_items_of_array with (dt := dt).
Qed.

(** For a supported model without an array of zero length whose arrays
    numpy can build, [unflatten] returns a structure exactly for the flat
    sequences of numbers and [Variable]s that are as long as the flattened
    model. *)
Theorem unflatten_accepts_exact_length flat m :
  supported m = true ->
  no_empty_array m = true ->
  plain flat ->
  buildable flat m ->
  (exists r, unflatten flat m = Ok r) <-> length flat = leaf_count m.
Proof.
  intros Hs Ha Hp Hb.
  pose proof (@unflatten_outcome_by_length flat m (supported_unmet _ Hs) Hp Hb)
    as H.
  rewrite <- (demand_leaf_count _ Hs Ha). split.
  - intros (r & Hr). now rewrite Hr in H.
  - intros Hlen. destruct (unflatten flat m) as [r|e]; [now exists r|].
    destruct e; try contradiction; lia.
Qed.

Lemma unflatten_accepts_exact_length_witness :
  (exists r,
     unflatten [Var 0; Var 1; Var 2]
       (PyTuple [NdArray float64 [Num 1; Num 2]; PyList [Num 3]]) = Ok r)
  <-> length [Var 0; Var 1; Var 2]
      = leaf_count (PyTuple [NdArray float64 [Num 1; Num 2]; PyList [Num 3]]).
Proof.
  apply (@unflatten_accepts_exact_length [Var 0; Var 1; Var 2]
           (PyTuple [NdArray float64 [Num 1; Num 2]; PyList [Num 3]])).
  - reflexivity.
  - reflexivity.
  - repeat constructor.
  - right. split; reflexivity.
Defined.

(** ** Objects of unsupported type *)

(** On a flat sequence of numbers and [Variable]s, [unflatten] never
    returns a structure for a model in which restoring meets an object that
    is neither a number, nor a [Variable], nor a container, and whose arrays
    numpy can build: it raises the [TypeError] of the source, or the
    [IndexError] when the flat sequence runs out before that object is
    reached. *)
Theorem unflatten_unsupported flat m :
  meets_unsupported m = true ->
  plain flat ->
  buildable flat m ->
  unflatten flat m = Raise (TypeError unsupported_type)
  \/ unflatten flat m = Raise IndexError.
Proof.
  intros Hm Hp Hb. pose proof (restoring_outcome Hp Hb) as H.
  unfold unflatten.
  destruct (_unflatten flat m) as [[r tl]|e]; cbn [outcome] in H.
  - destruct H as (H & _). congruence.
  - destruct e; try contradiction; auto.
    destruct H as [-> _]. now left.
Qed.

Lemma unflatten_unsupported_witness :
  unflatten [Num 1; Num 2] (PyList [Num 0; PyTuple [NoneVal]])
  = Raise (TypeError unsupported_type)
  \/ unflatten [Num 1; Num 2] (PyList [Num 0; PyTuple [NoneVal]])
     = Raise IndexError.
Proof.
  apply (@unflatten_unsupported [Num 1; Num 2]
           (PyList [Num 0; PyTuple [NoneVal]])).
  - reflexivity.
  - repeat constructor.
  - left. reflexivity.
Defined.

(** ** The shape of what is restored *)






(** * Further properties of the interferometer *)

(** ** The queue is only added to *)

Lemma appends_ret {A} (a : A) : appends (ret a).
Proof. intros q. unfold ret. now rewrite app_nil_r. Qed.

Lemma appends_raise {A} e : appends (@raise A e).
Proof. intros q. unfold raise. now rewrite app_nil_r. Qed.

Lemma appends_queue op : appends (queue op).
Proof. intros q. reflexivity. Qed.

Lemma appends_getitem {A} (xs : list A) i : appends (getitem xs i).
Proof.
  unfold getitem. destruct (nth_error xs i);
    [apply appends_ret|apply appends_raise].
Qed.

Lemma appends_bind {A B} (m : Prog A) (k : A -> Prog B) :
  appends m -> (forall a, appends (k a)) -> appends (bind m k).
Proof.
  intros Hm Hk q. unfold bind. rewrite (Hm q).
  destruct (m []) as [[a|e] ops]; cbn [fst snd].
  - rewrite (Hk a (q ++ ops)), (Hk a ops). cbn [fst snd].
    now rewrite app_assoc.
  - reflexivity.
Qed.

Lemma appends_for_each {A S} (xs : list A) (body : A -> S -> Prog S) :
  (forall x s, appends (body x s)) ->
  forall s, appends (for_each xs body s).
Proof.
  intros Hbody. induction xs as [|x xs IH]; intros s; cbn [for_each].
  - apply appends_ret.
  - apply appends_bind; auto.
Qed.

Ltac appends_step :=
  repeat first
    [ apply appends_bind; [|intros ?]
    | apply appends_ret | apply appends_raise
    | apply appends_queue | apply appends_getitem ].

Lemma appends_rectangular_mesh theta phi w bs N n :
  appends (rectangular_mesh theta phi w bs N n).
Proof.
  unfold rectangular_mesh. apply appends_for_each. intros l n'.
  apply appends_for_each. intros [k [w1 w2]] n''.
  destruct (negb ((l + k) mod 2 =? 1)); [|apply appends_ret].
  apply appends_bind; [|intros ?; apply appends_ret].
  destruct (selector_eqb bs "clements"); appends_step.
Qed.

Lemma appends_triangular_mesh theta phi w bs N n :
  appends (triangular_mesh theta phi w bs N n).
Proof.
  unfold triangular_mesh. apply appends_for_each. intros l n'.
  apply appends_for_each. intros k n''.
  apply appends_bind; [|intros ?; apply appends_ret].
  destruct (selector_eqb bs "clements"); appends_step.
Qed.

Lemma appends_final_rotations varphi w : appends (final_rotations varphi w).
Proof.
  unfold final_rotations. apply appends_for_each. intros [i p] [].
  appends_step.
Qed.

(** Whatever its arguments and however it ends, [Interferometer] leaves the
    operations queued before it in place and adds its own behind them; what
    it adds, and whether it returns or raises, does not depend on what was
    queued. *)
Lemma Interferometer_appends theta phi varphi wires mesh bs q :
  Interferometer theta phi varphi wires mesh bs q
  = (fst (Interferometer theta phi varphi wires mesh bs []),
     q ++ snd (Interferometer theta phi varphi wires mesh bs [])).
Proof.
  revert q. change (appends (Interferometer theta phi varphi wires mesh bs)).
  unfold Interferometer.
  destruct (selector_is_Variable bs); [apply appends_raise|].
  destruct (selector_is_Variable mesh); [apply appends_raise|].
  cbv zeta.
  destruct (length _ =? 1); [appends_step|].
  apply appends_bind; [|intros ?; apply appends_final_rotations].
  destruct (selector_eqb mesh "rectangular");
    [apply appends_rectangular_mesh|].
  destruct (selector_eqb mesh "triangular");
    [apply appends_triangular_mesh|apply appends_ret].
Qed.

(** ** No wire but the given ones *)

Section keeps_rules.
Variable P : operation -> Prop.

Lemma keeps_ret {A} (Q : A -> Prop) a : Q a -> keeps P Q (ret a).
Proof.
  intros Ha q Hq. split; [exact Hq|]. intros a' E. inversion E; subst.
  exact Ha.
Qed.

Lemma keeps_raise {A} (Q : A -> Prop) e : keeps P Q (raise e).
Proof. intros q Hq. split; [exact Hq|]. intros a E. discriminate. Qed.

Lemma keeps_queue op : P op -> keeps P (fun _ => True) (queue op).
Proof.
  intros Hop q Hq. split; [|auto]. cbn [queue snd].
  apply Forall_app. split; [exact Hq|]. now constructor.
Qed.

Lemma keeps_getitem {A} (xs : list A) i :
  keeps P (fun x => In x xs) (getitem xs i).
Proof.
  unfold getitem. destruct (nth_error xs i) as [x|] eqn:E.
  - apply keeps_ret. eapply nth_error_In; eassumption.
  - apply keeps_raise.
Qed.

Lemma keeps_bind {A B} (Q : A -> Prop) (R : B -> Prop) m (k : A -> Prog B) :
  keeps P Q m -> (forall a, Q a -> keeps P R (k a)) -> keeps P R (bind m k).
Proof.
  intros Hm Hk q Hq. destruct (Hm q Hq) as [Hq' Ha]. unfold bind.
  destruct (m q) as [[a|e] q']; cbn [fst snd] in *.
  - apply (Hk a (Ha a eq_refl) q' Hq').
  - split; [exact Hq'|]. intros b E. discriminate.
Qed.

Lemma keeps_for_each {A S} (xs : list A) (body : A -> S -> Prog S) :
  (forall x s, In x xs -> keeps P (fun _ => True) (body x s)) ->
  forall s, keeps P (fun _ => True) (for_each xs body s).
Proof.
  induction xs as [|x xs IH]; intros Hbody s; cbn [for_each].
  - now apply keeps_ret.
  - apply keeps_bind with (Q := fun _ => True).
    + apply Hbody. now left.
    + intros s' _. apply IH. intros y s'' Hy. apply Hbody. now right.
Qed.
End keeps_rules.

Lemma adjacent_in_wires (w : list wire) k w1 w2 :
  In (k, (w1, w2)) (enumerate (combine (removelast w) (tl w))) ->
  In w1 w /\ In w2 w.
Proof.
  intros H. unfold enumerate in H. apply in_combine_r in H.
  rewrite zip_adjacent in H. apply in_map_iff in H.
  destruct H as (j & E & Hj). inversion E; subst. apply in_seq in Hj.
  split; apply nth_In; lia.
Qed.

Lemma on_wires_one w x p : In x w -> on_wires w (Rotation p (WireSeq [x])).
Proof. intros H y [<-|[]]. exact H. Qed.

Lemma on_wires_two w x y t p :
  In x w -> In y w -> on_wires w (Beamsplitter t p (WireSeq [x; y])).
Proof. intros Hx Hy z [<-|[<-|[]]]; assumption. Qed.

Ltac keeps_step :=
  repeat first
    [ apply keeps_queue; first [ now apply on_wires_one
                               | now apply on_wires_two ]
    | apply keeps_ret; exact I
    | eapply keeps_bind; [apply keeps_getitem|cbv beta; intros ? ?]
    | eapply keeps_bind with (Q := fun _ => True); [|intros ? _] ].

Lemma keeps_rectangular_mesh theta phi w bs N n :
  keeps (on_wires w) (fun _ => True) (rectangular_mesh theta phi w bs N n).
Proof.
  unfold rectangular_mesh. apply keeps_for_each. intros l n' _.
  apply keeps_for_each. intros [k [w1 w2]] n'' Hin.
  apply adjacent_in_wires in Hin. destruct Hin as [H1 H2].
  destruct (negb ((l + k) mod 2 =? 1)); [|now apply keeps_ret].
  destruct (selector_eqb bs "clements"); keeps_step.
Qed.

Lemma keeps_triangular_mesh theta phi w bs N n :
  keeps (on_wires w) (fun _ => True) (triangular_mesh theta phi w bs N n).
Proof.
  unfold triangular_mesh. apply keeps_for_each. intros l n' _.
  apply keeps_for_each. intros k n'' _.
  destruct (selector_eqb bs "clements"); keeps_step.
Qed.

Lemma keeps_final_rotations varphi w :
  keeps (on_wires w) (fun _ => True) (final_rotations varphi w).
Proof.
  unfold final_rotations. apply keeps_for_each. intros [i p] [] _.
  keeps_step.
Qed.

(** Every operation [Interferometer] queues, whatever its arguments and
    whether it returns or raises, acts on wires that are among the wires it
    was given. *)
Theorem Interferometer_on_wires theta phi varphi wires mesh bs :
  Forall (on_wires (wires_of wires))
         (snd (Interferometer theta phi varphi wires mesh bs [])).
Proof.
  assert (H : keeps (on_wires (wires_of wires)) (fun _ => True)
                (Interferometer theta phi varphi wires mesh bs)).
  { unfold Interferometer.
    destruct (selector_is_Variable bs); [apply keeps_raise|].
    destruct (selector_is_Variable mesh); [apply keeps_raise|].
    cbv zeta. fold (wires_of wires).
    destruct (length _ =? 1).
    - eapply keeps_bind; [apply keeps_getitem|cbv beta; intros p _].
      eapply keeps_bind; [apply keeps_getitem|cbv beta; intros w0 Hw0].
      apply keeps_queue. intros y [<-|[]]. exact Hw0.
    - eapply keeps_bind with (Q := fun _ => True);
        [|intros ? _; apply keeps_final_rotations].
      destruct (selector_eqb mesh "rectangular");
        [apply keeps_rectangular_mesh|].
      destruct (selector_eqb mesh "triangular");
        [apply keeps_triangular_mesh|now apply keeps_ret]. }
  apply (H []). constructor.
Qed.

(** ** Angle arrays that are too short *)

Lemma getitem_out {A} (xs : list A) i q :
  length xs <= i -> getitem xs i q = (Raise IndexError, q).
Proof.
  intros H. unfold getitem.
  now rewrite (proj2 (nth_error_None xs i) H).
Qed.

Lemma coupling_rect_fails bs theta phi w1 w2 n q :
  length theta <= n \/ length phi <= n ->
  fst ((if selector_eqb bs "clements" then
          p <- getitem phi n ;;
          queue (Rotation p (WireSeq [w1])) ;;;
          t <- getitem theta n ;;
          queue (Beamsplitter t (Num 0) (WireSeq [w1; w2]))
        else
          t <- getitem theta n ;;
          p <- getitem phi n ;;
          queue (Beamsplitter t p (WireSeq [w1; w2]))) q)
  = Raise IndexError.
Proof.
  intros H. unfold bind, queue.
  destruct (selector_eqb bs "clements").
  - destruct (Nat.le_gt_cases (length phi) n) as [Hp|Hp].
    + now rewrite (getitem_out phi q Hp).
    + rewrite (getitem_nth phi NoneVal q Hp).
      rewrite getitem_out by lia. reflexivity.
  - destruct (Nat.le_gt_cases (length theta) n) as [Ht|Ht].
    + now rewrite (getitem_out theta q Ht).
    + rewrite (getitem_nth theta NoneVal q Ht).
      rewrite getitem_out by lia. reflexivity.
Qed.

Lemma coupling_tri_fails bs theta phi w k n q :
  length theta <= n \/ length phi <= n ->
  fst ((if selector_eqb bs "clements" then
          p <- getitem phi n ;;
          wk <- getitem w k ;;
          queue (Rotation p (WireSeq [wk])) ;;;
          t <- getitem theta n ;;
          wk <- getitem w k ;;
          wk1 <- getitem w (k + 1) ;;
          queue (Beamsplitter t (Num 0) (WireSeq [wk; wk1]))
        else
          t <- getitem theta n ;;
          p <- getitem phi n ;;
          wk <- getitem w k ;;
          wk1 <- getitem w (k + 1) ;;
          queue (Beamsplitter t p (WireSeq [wk; wk1]))) q)
  = Raise IndexError.
Proof.
  intros H. unfold bind, queue.
  destruct (selector_eqb bs "clements").
  - destruct (Nat.le_gt_cases (length phi) n) as [Hp|Hp].
    + now rewrite (getitem_out phi q Hp).
    + rewrite (getitem_nth phi NoneVal q Hp).
      unfold getitem at 1. destruct (nth_error w k); [|reflexivity].
      unfold ret. rewrite getitem_out by lia. reflexivity.
  - destruct (Nat.le_gt_cases (length theta) n) as [Ht|Ht].
    + now rewrite (getitem_out theta q Ht).
    + rewrite (getitem_nth theta NoneVal q Ht).
      rewrite getitem_out by lia. reflexivity.
Qed.

Lemma bind_fails {A B} (m : Prog A) (k : A -> Prog B) q e :
  fst (m q) = Raise e -> fst (bind m k q) = Raise e.
Proof.
  unfold bind. destruct (m q) as [[a|e'] q']; cbn [fst]; congruence.
Qed.

Lemma rect_layer_fails bs theta phi w l ks :
  forall n q,
    n <= length theta -> n <= length phi ->
    length theta < n + length (filter (included l) ks)
    \/ length phi < n + length (filter (included l) ks) ->
    fst (for_each (map (fun k => (k, (nth k w 0, nth (S k) w 0))) ks)
      (fun '(k, (w1, w2)) n =>
         if negb ((l + k) mod 2 =? 1) then
           (if selector_eqb bs "clements" then
              p <- getitem phi n ;;
              queue (Rotation p (WireSeq [w1])) ;;;
              t <- getitem theta n ;;
              queue (Beamsplitter t (Num 0) (WireSeq [w1; w2]))
            else
              t <- getitem theta n ;;
              p <- getitem phi n ;;
              queue (Beamsplitter t p (WireSeq [w1; w2]))) ;;;
           ret (n + 1)
         else ret n) n q)
    = Raise IndexError.
Proof.
  induction ks as [|k ks IH]; intros n q Ht Hp H;
    cbn [map for_each filter] in *.
  - cbn [length] in H. lia.
  - unfold included in H |- *.
    destruct (negb ((l + k) mod 2 =? 1)); cbn [length] in H;
      fold (included l) in *.
    + destruct (Nat.eq_dec n (length theta)) as [Et|Et];
        [|destruct (Nat.eq_dec n (length phi)) as [Ep|Ep]].
      * do 2 apply bind_fails. apply coupling_rect_fails. left. lia.
      * do 2 apply bind_fails. apply coupling_rect_fails. right. lia.
      * unfold bind at 1. unfold bind at 1. rewrite coupling_rect by lia.
        unfold ret at 1. apply IH; lia.
    + unfold bind at 1. unfold ret at 1. apply IH; assumption.
Qed.

Lemma tri_layer_fails bs theta phi w ks :
  Forall (fun k => S k < length w) ks ->
  forall n q,
    n <= length theta -> n <= length phi ->
    length theta < n + length ks \/ length phi < n + length ks ->
    fst (for_each ks
      (fun k n =>
         (if selector_eqb bs "clements" then
            p <- getitem phi n ;;
            wk <- getitem w k ;;
            queue (Rotation p (WireSeq [wk])) ;;;
            t <- getitem theta n ;;
            wk <- getitem w k ;;
            wk1 <- getitem w (k + 1) ;;
            queue (Beamsplitter t (Num 0) (WireSeq [wk; wk1]))
          else
            t <- getitem theta n ;;
            p <- getitem phi n ;;
            wk <- getitem w k ;;
            wk1 <- getitem w (k + 1) ;;
            queue (Beamsplitter t p (WireSeq [wk; wk1]))) ;;;
         ret (n + 1)) n q)
    = Raise IndexError.
Proof.
  induction 1 as [|k ks Hk _ IH]; intros n q Ht Hp H;
    cbn [for_each length] in *.
  - lia.
  - destruct (Nat.eq_dec n (length theta)) as [Et|Et];
      [|destruct (Nat.eq_dec n (length phi)) as [Ep|Ep]].
    + do 2 apply bind_fails. apply coupling_tri_fails. left. lia.
    + do 2 apply bind_fails. apply coupling_tri_fails. right. lia.
    + unfold bind at 1. unfold bind at 1. rewrite coupling_tri by lia.
      unfold ret at 1. apply IH; lia.
Qed.

(** An outer loop whose body runs a layer when the slots suffice and raises
    when they do not. *)
Lemma layers_fail bs theta phi w (g : nat -> list nat)
    (body : nat -> nat -> Prog nat) ls :
  (forall l n q, In l ls ->
     n + length (g l) <= length theta -> n + length (g l) <= length phi ->
     body l n q
     = (Ok (n + length (g l)), q ++ schedule bs theta phi w (g l) n)) ->
  (forall l n q, In l ls ->
     n <= length theta -> n <= length phi ->
     length theta < n + length (g l) \/ length phi < n + length (g l) ->
     fst (body l n q) = Raise IndexError) ->
  forall n q,
    n <= length theta -> n <= length phi ->
    length theta < n + length (concat (map g ls))
    \/ length phi < n + length (concat (map g ls)) ->
    fst (for_each ls body n q) = Raise IndexError.
Proof.
  induction ls as [|l ls IH]; intros Hok Hfail n q Ht Hp H;
    cbn [map concat for_each length] in *.
  - lia.
  - rewrite !length_app in H.
    destruct (Nat.le_gt_cases (n + length (g l)) (length theta)) as [Ht'|Ht'];
      [destruct (Nat.le_gt_cases (n + length (g l)) (length phi))
         as [Hp'|Hp']|].
    + unfold bind. rewrite Hok by (try lia; now left).
      apply IH; try lia.
      * intros l' n' q' Hl'. apply Hok. now right.
      * intros l' n' q' Hl'. apply Hfail. now right.
    + apply bind_fails. apply Hfail; auto. now left.
    + apply bind_fails. apply Hfail; auto. now left.
Qed.

Lemma rectangular_mesh_fails bs theta phi w q :
  length theta < length (concat (spec_rect_layers (length w)))
  \/ length phi < length (concat (spec_rect_layers (length w))) ->
  fst (rectangular_mesh theta phi w bs (length w) 0 q) = Raise IndexError.
Proof.
  intros H. unfold rectangular_mesh, range.
  rewrite Nat2Z.id, zip_adjacent, enumerate_map_seq.
  unfold spec_rect_layers in H.
  apply (layers_fail bs theta phi w (spec_rect_layer (length w)));
    try lia; try assumption.
  - intros l n q' _ Ht Hp. unfold spec_rect_layer in *.
    now apply rect_layer_run.
  - intros l n q' _ Ht Hp H'. unfold spec_rect_layer in *.
    now apply rect_layer_fails.
Qed.

Lemma triangular_mesh_fails bs theta phi w q :
  1 <= length w ->
  length theta < length (concat (spec_tri_layers (length w)))
  \/ length phi < length (concat (spec_tri_layers (length w))) ->
  fst (triangular_mesh theta phi w bs (length w) 0 q) = Raise IndexError.
Proof.
  intros HN H. unfold triangular_mesh, range.
  replace (Z.to_nat (2 * Z.of_nat (length w) - 3))
    with (2 * length w - 3) by lia.
  unfold spec_tri_layers in H.
  assert (Hvalid : forall l, Forall (fun k => S k < length w)
                               (spec_tri_layer (length w) l)).
  { intros l. rewrite Forall_forall. intros k Hk.
    apply stepping_below in Hk. lia. }
  apply (layers_fail bs theta phi w (spec_tri_layer (length w)));
    try lia; try assumption.
  - intros l n q' _ Ht Hp. rewrite tri_layer_spec by assumption.
    now apply tri_layer_run.
  - intros l n q' _ Ht Hp H'. rewrite tri_layer_spec by assumption.
    now apply tri_layer_fails.
Qed.

(** With [N >= 2] wires and either mesh, an array [theta] or [phi] with
    fewer than [N(N-1)/2] entries makes [Interferometer] raise the
    [IndexError]: it never returns with a shorter circuit. *)
Theorem Interferometer_short_angles theta phi varphi ws mesh bs q :
  2 <= length ws ->
  mesh = Str "rectangular" \/ mesh = Str "triangular" ->
  selector_is_Variable bs = false ->
  length theta < length ws * (length ws - 1) / 2
  \/ length phi < length ws * (length ws - 1) / 2 ->
  fst (Interferometer theta phi varphi (WireSeq ws) mesh bs q)
  = Raise IndexError.
Proof.
  intros HN Hmesh Hb H. unfold Interferometer. rewrite Hb.
  destruct (Nat.eqb_spec (length ws) 1) as [E|_]; [lia|].
  destruct Hmesh as [-> | ->]; cbn [selector_is_Variable selector_eqb].
  - change (String.eqb "rectangular" "rectangular") with true. cbv iota.
    apply bind_fails. apply rectangular_mesh_fails.
    now rewrite rect_count.
  - change (String.eqb "triangular" "rectangular") with false.
    change (String.eqb "triangular" "triangular") with true. cbv iota.
    apply bind_fails. apply triangular_mesh_fails; [lia|].
    now rewrite tri_count.
Qed.

Lemma Interferometer_short_angles_witness :
  fst (Interferometer (sym 100 6) (sym 200 5) (sym 300 4)
         (WireSeq [10; 11; 12; 13]) (Str "rectangular") (Str "clements") [])
  = Raise IndexError.
Proof.
  apply (@Interferometer_short_angles (sym 100 6) (sym 200 5) (sym 300 4)
           [10; 11; 12; 13] (Str "rectangular") (Str "clements") []).
  - simpl. lia.
  - left. reflexivity.
  - reflexivity.
  - right. simpl. lia.
Defined.

(** ** Too many rotation angles *)

Lemma rotations_from_fails varphi w :
  forall a q, a <= length w -> length w < a + length varphi ->
    for_each (combine (seq a (length varphi)) varphi)
      (fun '(i, p) _ =>
         wi <- getitem w i ;; queue (Rotation p (WireSeq [wi]))) tt q
    = (Raise IndexError,
       q ++ map (fun '(i, p) => Rotation p (WireSeq [nth i w 0]))
                (combine (seq a (length w - a)) (firstn (length w - a) varphi))).
Proof.
  induction varphi as [|p ps IH]; intros a q Ha H;
    cbn [length seq combine for_each] in *.
  - lia.
  - unfold bind at 1. unfold bind at 1.
    destruct (Nat.eq_dec a (length w)) as [E|E].
    + rewrite getitem_out by lia.
      replace (length w - a) with 0 by lia. cbn [seq combine map].
      now rewrite app_nil_r.
    + rewrite (@getitem_nth _ w a 0 q) by lia.
      unfold queue at 1. rewrite IH by lia.
      replace (length w - a) with (S (length w - S a)) by lia.
      cbn [seq firstn combine map]. now rewrite <- app_assoc.
Qed.

(** With [N >= 2] wires, either mesh and angle arrays that are long enough,
    more than [N] entries in [varphi] make [Interferometer] raise the
    [IndexError] of [w[i]], after it has queued every coupling and the
    rotations of the first [N] entries. *)
Theorem Interferometer_long_varphi theta phi varphi ws mesh bs q :
  2 <= length ws ->
  mesh = Str "rectangular" \/ mesh = Str "triangular" ->
  selector_is_Variable bs = false ->
  length ws * (length ws - 1) / 2 <= length theta ->
  length ws * (length ws - 1) / 2 <= length phi ->
  length ws < length varphi ->
  Interferometer theta phi varphi (WireSeq ws) mesh bs q
  = (Raise IndexError,
     q ++ schedule bs theta phi ws (concat (mesh_layers mesh (length ws))) 0
       ++ rotations (firstn (length ws) varphi) ws).
Proof.
  intros HN Hmesh Hb Ht Hp Hv.
  pose proof (mesh_count HN Hmesh) as Hcount.
  assert (Hrot : forall q',
            final_rotations varphi ws q'
            = (Raise IndexError, q' ++ rotations (firstn (length ws) varphi) ws)).
  { intros q'. unfold final_rotations, rotations, enumerate.
    rewrite rotations_from_fails by lia.
    rewrite length_firstn, Nat.sub_0_r, Nat.min_l by lia. reflexivity. }
  unfold Interferometer, mesh_layers in *. rewrite Hb.
  destruct (Nat.eqb_spec (length ws) 1) as [E|_]; [lia|].
  unfold bind.
  destruct Hmesh as [-> | ->]; cbn [selector_is_Variable selector_eqb] in *.
  - change (String.eqb "rectangular" "rectangular") with true in *.
    cbv iota in *. rewrite rectangular_mesh_run by lia.
    rewrite Hrot. now rewrite <- app_assoc.
  - change (String.eqb "triangular" "rectangular") with false in *.
    change (String.eqb "triangular" "triangular") with true in *.
    cbv iota in *. rewrite triangular_mesh_run by lia.
    rewrite Hrot. now rewrite <- app_assoc.
Qed.

Lemma Interferometer_long_varphi_witness :
  Interferometer (sym 100 3) (sym 200 3) (sym 300 5) (WireSeq [10; 11; 12])
    (Str "triangular") (Str "pennylane") []
  = (Raise IndexError,
     [] ++ schedule (Str "pennylane") (sym 100 3) (sym 200 3) [10; 11; 12]
             (concat (mesh_layers (Str "triangular") (length [10; 11; 12]))) 0
        ++ rotations (firstn (length [10; 11; 12]) (sym 300 5)) [10; 11; 12]).
Proof.
  apply (@Interferometer_long_varphi (sym 100 3) (sym 200 3) (sym 300 5)
           [10; 11; 12] (Str "triangular") (Str "pennylane") []).
  - simpl. lia.
  - right. reflexivity.
  - reflexivity.
  - simpl. lia.
  - simpl. lia.
  - simpl. lia.
Defined.

(** ** A mesh that is neither of the two *)

(** A text for [mesh] other than ['rectangular'] and ['triangular'] is not
    rejected: with a number of wires other than one, [Interferometer] queues
    no coupling at all, never reads [theta] or [phi], and queues the final
    rotations only. *)
Theorem Interferometer_unknown_mesh theta phi varphi ws s bs q :
  s <> "rectangular"%string -> s <> "triangular"%string ->
  selector_is_Variable bs = false ->
  length ws <> 1 ->
  length varphi <= length ws ->
  Interferometer theta phi varphi (WireSeq ws) (Str s) bs q
  = (Ok tt, q ++ rotations varphi ws).
Proof.
  intros Hr Ht Hb HN Hv. unfold Interferometer.
  rewrite Hb. cbn [selector_is_Variable selector_eqb].
  destruct (Nat.eqb_spec (length ws) 1) as [E|_]; [contradiction|].
  destruct (String.eqb_spec s "rectangular") as [E|_]; [contradiction|].
  destruct (String.eqb_spec s "triangular") as [E|_]; [contradiction|].
  unfold bind, ret. now apply final_rotations_run.
Qed.

Lemma Interferometer_unknown_mesh_witness :
  Interferometer [] [] (sym 300 3) (WireSeq [10; 11; 12]) (Str "Rectangular")
    (Str "pennylane") []
  = (Ok tt, [] ++ rotations (sym 300 3) [10; 11; 12]).
Proof.
  apply (@Interferometer_unknown_mesh [] [] (sym 300 3) [10; 11; 12]
           "Rectangular" (Str "pennylane") []).
  - discriminate.
  - discriminate.
  - reflexivity.
  - simpl. lia.
  - simpl. lia.
Defined.

(** ** The number of operations *)

Lemma length_schedule bs theta phi w ks :
  forall n,
    length (schedule bs theta phi w ks n)
    = (if selector_eqb bs "clements" then 2 else 1) * length ks.
Proof.
  induction ks as [|k ks IH]; intros n; cbn [schedule length].
  - lia.
  - rewrite length_app, IH. unfold coupling_ops.
    destruct (selector_eqb bs "clements"); cbn [length]; lia.
Qed.

Lemma length_rotations varphi w : length (rotations varphi w) = length varphi.
Proof.
  unfold rotations, enumerate.
  now rewrite length_map, length_combine, length_seq, Nat.min_id.
Qed.

(** With [N >= 2] wires and either mesh, [Interferometer] queues
    [N(N-1)/2 + len(varphi)] operations under the default convention and
    [N(N-1)/2] more, one rotation per coupling, under the ['clements']
    convention. *)
Theorem Interferometer_operation_count theta phi varphi ws mesh bs :
  2 <= length ws ->
  mesh = Str "rectangular" \/ mesh = Str "triangular" ->
  selector_is_Variable bs = false ->
  length ws * (length ws - 1) / 2 <= length theta ->
  length ws * (length ws - 1) / 2 <= length phi ->
  length varphi <= length ws ->
  fst (Interferometer theta phi varphi (WireSeq ws) mesh bs []) = Ok tt
  /\ length (snd (Interferometer theta phi varphi (WireSeq ws) mesh bs []))
     = (if selector_eqb bs "clements" then 2 else 1)
       * (length ws * (length ws - 1) / 2)
       + length varphi.
Proof.
  intros HN Hmesh Hb Ht Hp Hv.
  pose proof (mesh_count HN Hmesh) as Hcount.
  rewrite interferometer_run; try assumption; try lia.
  - cbn [fst snd app]. split; [reflexivity|].
    now rewrite length_app, length_schedule, length_rotations, Hcount.
  - destruct Hmesh as [-> | ->]; reflexivity.
Qed.

Lemma Interferometer_operation_count_witness :
  fst (Interferometer (sym 100 6) (sym 200 6) (sym 300 4)
         (WireSeq [10; 11; 12; 13]) (Str "rectangular") (Str "clements") [])
  = Ok tt
  /\ length (snd (Interferometer (sym 100 6) (sym 200 6) (sym 300 4)
               (WireSeq [10; 11; 12; 13]) (Str "rectangular")
               (Str "clements") []))
     = (if selector_eqb (Str "clements") "clements" then 2 else 1)
       * (length [10; 11; 12; 13] * (length [10; 11; 12; 13] - 1) / 2)
       + length (sym 300 4).
Proof.
  apply (@Interferometer_operation_count (sym 100 6) (sym 200 6) (sym 300 4)
           [10; 11; 12; 13] (Str "rectangular") (Str "clements")).
  - simpl. lia.
  - left. reflexivity.
  - reflexivity.
  - simpl. lia.
  - simpl. lia.
  - simpl. lia.
Defined.

(** ** Which pairs are coupled *)

Lemma rect_layer_In N l k :
  In k (spec_rect_layer N l) <-> k < N - 1 /\ included l k = true.
Proof.
  unfold spec_rect_layer. rewrite filter_In, in_seq. intuition lia.
Qed.

Lemma included_even l k : included l k = true <-> (l + k) mod 2 = 0.
Proof.
  unfold included. destruct (Nat.eqb_spec ((l + k) mod 2) 1); cbn [negb];
    split; intros H; try reflexivity; try discriminate; div_lia.
Qed.

Lemma tri_layer_In N l k :
  In k (spec_tri_layer N l)
  <-> (exists i, k = spec_tri_start N l + 2 * i) /\ k < N - 1.
Proof. unfold spec_tri_layer. apply stepping_In. lia. Qed.

(** In both meshes, with [N >= 2] wires, the pairs that are coupled are the
    pairs of neighbouring positions [(k, k + 1)], and every one of them is
    coupled at least once. *)
Theorem every_neighbour_pair_coupled theta phi varphi ws mesh bs q :
  2 <= length ws ->
  mesh = Str "rectangular" \/ mesh = Str "triangular" ->
  selector_is_Variable bs = false ->
  length ws * (length ws - 1) / 2 <= length theta ->
  length ws * (length ws - 1) / 2 <= length phi ->
  length varphi <= length ws ->
  exists ks,
    Interferometer theta phi varphi (WireSeq ws) mesh bs q
    = (Ok tt, q ++ schedule bs theta phi ws ks 0 ++ rotations varphi ws)
    /\ (forall k, In k ks <-> S k < length ws).
Proof.
  intros HN Hmesh Hb Ht Hp Hv.
  pose proof (mesh_count HN Hmesh) as Hcount.
  exists (concat (mesh_layers mesh (length ws))). split.
  - apply interferometer_run; try assumption; try lia.
    destruct Hmesh as [-> | ->]; reflexivity.
  - intros k. split; [apply mesh_pairs_valid|]. intros Hk.
    apply in_concat. unfold mesh_layers.
    destruct Hmesh as [-> | ->]; cbn [selector_eqb].
    + change (String.eqb "rectangular" "rectangular") with true. cbv iota.
      exists (spec_rect_layer (length ws) (k mod 2)). split.
      * unfold spec_rect_layers. apply in_map. apply in_seq. div_lia.
      * apply rect_layer_In. split; [lia|]. apply included_even. div_lia.
    + change (String.eqb "triangular" "rectangular") with false.
      change (String.eqb "triangular" "triangular") with true. cbv iota.
      exists (spec_tri_layer (length ws) (length ws - 2 + k)). split.
      * unfold spec_tri_layers. apply in_map. apply in_seq. lia.
      * apply tri_layer_In. split; [|lia]. exists 0.
        unfold spec_tri_start. lia.
Qed.

Lemma every_neighbour_pair_coupled_witness :
  exists ks,
    Interferometer (sym 100 6) (sym 200 6) (sym 300 4)
      (WireSeq [10; 11; 12; 13]) (Str "triangular") (Str "pennylane") []
    = (Ok tt,
       [] ++ schedule (Str "pennylane") (sym 100 6) (sym 200 6)
               [10; 11; 12; 13] ks 0
          ++ rotations (sym 300 4) [10; 11; 12; 13])
    /\ (forall k, In k ks <-> S k < length [10; 11; 12; 13]).
Proof.
  apply (@every_neighbour_pair_coupled (sym 100 6) (sym 200 6) (sym 300 4)
           [10; 11; 12; 13] (Str "triangular") (Str "pennylane") []).
  - simpl. lia.
  - right. reflexivity.
  - reflexivity.
  - simpl. lia.
  - simpl. lia.
  - simpl. lia.
Defined.

Lemma stepping_disjoint fuel :
  forall s t, NoDup (flat_map (fun k => [k; S k]) (stepping fuel s t)).
Proof.
  induction fuel as [|fuel IH]; intros s t; cbn [stepping].
  - constructor.
  - destruct (s <? t); [|constructor]. cbn [flat_map app].
    assert (Hin : forall x,
              In x (flat_map (fun k => [k; S k]) (stepping fuel (s + 2) t)) ->
              s + 2 <= x).
    { intros x Hx. apply in_flat_map in Hx. destruct Hx as (k & Hk & Hx).
      apply stepping_below in Hk. destruct Hx as [<-|[<-|[]]]; lia. }
    constructor; [|constructor; [|apply IH]].
    + intros [H|H]; [lia|]. apply Hin in H. lia.
    + intros H. apply Hin in H. lia.
Qed.

(** In the triangular mesh no position is used twice within a layer: the
    pairs [(k, k + 1)] for the [k] of one inner [range] do not overlap. *)
Theorem triangular_layers_disjoint N l :
  1 <= N ->
  NoDup (flat_map (fun k => [k; S k])
           (range3 (Z.abs (Z.of_nat l + 1 - (Z.of_nat N - 1)))
                   (Z.of_nat N - 1) 2)).
Proof.
  intros HN. rewrite tri_layer_spec by assumption. apply stepping_disjoint.
Qed.

Lemma triangular_layers_disjoint_witness :
  NoDup (flat_map (fun k => [k; S k])
           (range3 (Z.abs (Z.of_nat 2 + 1 - (Z.of_nat 4 - 1)))
                   (Z.of_nat 4 - 1) 2)).
Proof. apply (@triangular_layers_disjoint 4 2). lia. Defined.

(** ** The first beamsplitters *)

Lemma stepping_one fuel k stop :
  1 <= fuel -> k < stop -> stop <= k + 2 -> stepping fuel k stop = [k].
Proof.
  intros Hf Hk Hs. destruct fuel as [|fuel]; [lia|]. cbn [stepping].
  destruct (Nat.ltb_spec k stop); [|lia]. f_equal.
  destruct fuel as [|fuel]; [reflexivity|]. cbn [stepping].
  destruct (Nat.ltb_spec (k + 2) stop); [lia|reflexivity].
Qed.

Lemma stepping_two fuel k stop :
  2 <= fuel -> k + 2 < stop -> stop <= k + 4 ->
  stepping fuel k stop = [k; k + 2].
Proof.
  intros Hf Hk Hs. destruct fuel as [|fuel]; [lia|]. cbn [stepping].
  destruct (Nat.ltb_spec k stop); [|lia]. f_equal.
  apply stepping_one; lia.
Qed.

Lemma triangular_prefix N :
  4 <= N ->
  exists rest,
    concat (spec_tri_layers N) = [N - 2; N - 3; N - 4; N - 2] ++ rest.
Proof.
  intros HN. unfold spec_tri_layers.
  replace (2 * N - 3) with (S (S (S (2 * N - 6)))) by lia.
  cbn [seq map concat].
  exists (concat (map (spec_tri_layer N) (seq 3 (2 * N - 6)))).
  unfold spec_tri_layer at 1 2 3. unfold spec_tri_start.
  rewrite (@stepping_one N (Z.abs_nat (Z.of_nat 0 + 1 - (Z.of_nat N - 1))))
    by lia.
  rewrite (@stepping_one N (Z.abs_nat (Z.of_nat 1 + 1 - (Z.of_nat N - 1))))
    by lia.
  rewrite (@stepping_two N (Z.abs_nat (Z.of_nat 2 + 1 - (Z.of_nat N - 1))))
    by lia.
  cbn [app]. f_equal; [lia|]. f_equal; [lia|]. f_equal; [lia|].
  f_equal. lia.
Qed.

Lemma rectangular_prefix N :
  2 <= N -> exists rest, concat (spec_rect_layers N) = 0 :: rest.
Proof.
  intros HN. destruct N as [|[|m]]; try lia.
  unfold spec_rect_layers. cbn [seq map concat].
  unfold spec_rect_layer at 1.
  replace (S (S m) - 1) with (S m) by lia. cbn [seq filter].
  change (included 0 0) with true. cbv iota. cbn [app]. eauto.
Qed.

(** As the documentation of the rectangular mesh says, the first
    beamsplitter acts on the first two wires. *)
Theorem rectangular_first_beamsplitter theta phi varphi ws bs q :
  2 <= length ws ->
  selector_is_Variable bs = false ->
  length ws * (length ws - 1) / 2 <= length theta ->
  length ws * (length ws - 1) / 2 <= length phi ->
  length varphi <= length ws ->
  exists rest,
    Interferometer theta phi varphi (WireSeq ws) (Str "rectangular") bs q
    = (Ok tt,
       q ++ coupling_ops bs (nth 0 theta NoneVal) (nth 0 phi NoneVal)
                         (nth 0 ws 0) (nth 1 ws 0)
         ++ rest).
Proof.
  intros HN Hb Ht Hp Hv.
  pose proof (@mesh_count (Str "rectangular") _ HN (or_introl eq_refl)) as Hc.
  destruct (rectangular_prefix HN) as (ks & Hks).
  exists (schedule bs theta phi ws ks 1 ++ rotations varphi ws).
  rewrite interferometer_run; try assumption; try reflexivity; try lia.
  change (mesh_layers (Str "rectangular") (length ws))
    with (spec_rect_layers (length ws)).
  rewrite Hks. cbn [schedule]. now rewrite <- !app_assoc.
Qed.

Lemma rectangular_first_beamsplitter_witness :
  exists rest,
    Interferometer (sym 100 3) (sym 200 3) (sym 300 3) (WireSeq [10; 11; 12])
      (Str "rectangular") (Str "pennylane") []
    = (Ok tt,
       [] ++ coupling_ops (Str "pennylane") (nth 0 (sym 100 3) NoneVal)
               (nth 0 (sym 200 3) NoneVal)
               (nth 0 [10; 11; 12] 0) (nth 1 [10; 11; 12] 0)
          ++ rest).
Proof.
  apply (@rectangular_first_beamsplitter (sym 100 3) (sym 200 3) (sym 300 3)
           [10; 11; 12] (Str "pennylane") []).
  - simpl. lia.
  - reflexivity.
  - simpl. lia.
  - simpl. lia.
  - simpl. lia.
Defined.

(** As the documentation of the triangular mesh says, for [N >= 4] wires
    the first and the fourth beamsplitter act on the last two wires, the
    second on the two before the last and the third on the two before
    these. *)
Theorem triangular_first_beamsplitters theta phi varphi ws bs q :
  4 <= length ws ->
  selector_is_Variable bs = false ->
  length ws * (length ws - 1) / 2 <= length theta ->
  length ws * (length ws - 1) / 2 <= length phi ->
  length varphi <= length ws ->
  exists rest,
    Interferometer theta phi varphi (WireSeq ws) (Str "triangular") bs q
    = (Ok tt,
       q ++ schedule bs theta phi ws
              ([length ws - 2; length ws - 3; length ws - 4; length ws - 2]
               ++ rest) 0
         ++ rotations varphi ws).
Proof.
  intros HN Hb Ht Hp Hv.
  assert (HN2 : 2 <= length ws) by lia.
  pose proof (@mesh_count (Str "triangular") _ HN2 (or_intror eq_refl)) as Hc.
  destruct (triangular_prefix HN) as (ks & Hks).
  exists ks. rewrite <- Hks.
  apply (@interferometer_run theta phi varphi ws (Str "triangular"));
    try assumption; try reflexivity; lia.
Qed.

Lemma triangular_first_beamsplitters_witness :
  exists rest,
    Interferometer (sym 100 10) (sym 200 10) (sym 300 5)
      (WireSeq [10; 11; 12; 13; 14]) (Str "triangular") (Str "pennylane") []
    = (Ok tt,
       [] ++ schedule (Str "pennylane") (sym 100 10) (sym 200 10)
               [10; 11; 12; 13; 14]
               ([length [10; 11; 12; 13; 14] - 2;
                 length [10; 11; 12; 13; 14] - 3;
                 length [10; 11; 12; 13; 14] - 4;
                 length [10; 11; 12; 13; 14] - 2] ++ rest) 0
          ++ rotations (sym 300 5) [10; 11; 12; 13; 14]).
Proof.
  apply (@triangular_first_beamsplitters (sym 100 10) (sym 200 10) (sym 300 5)
           [10; 11; 12; 13; 14] (Str "pennylane") []).
  - simpl. lia.
  - reflexivity.
  - simpl. lia.
  - simpl. lia.
  - simpl. lia.
Defined.

(** * Properties of the other templates *)

(** ** Loops over gates *)

Lemma tfor_each_emits {A} (xs : list A) (body : A -> unit -> Template unit)
    (out : A -> list gate) :
  (forall x q, In x xs -> body x tt q = (Ok tt, q ++ out x)) ->
  forall q, tfor_each xs body tt q = (Ok tt, q ++ flat_map out xs).
Proof.
  induction xs as [|x xs IH]; intros Hbody q; cbn [tfor_each flat_map].
  - unfold tret. now rewrite app_nil_r.
  - unfold tbind. rewrite Hbody by now left.
    rewrite IH by (intros y q' Hy; apply Hbody; now right).
    now rewrite <- app_assoc.
Qed.

Lemma flat_map_single {A B} (f : A -> B) xs :
  flat_map (fun x => [f x]) xs = map f xs.
Proof. induction xs as [|x xs IH]; simpl; congruence. Qed.

Lemma tgetitem_nth {A} (xs : list A) i d q :
  i < length xs -> tgetitem xs i q = (Ok (nth i xs d), q).
Proof.
  intros H. unfold tgetitem. now rewrite (nth_error_nth' xs d H).
Qed.

Lemma tgetitem_out {A} (xs : list A) i q :
  length xs <= i -> tgetitem xs i q = (Raise IndexError, q).
Proof.
  intros H. unfold tgetitem.
  now rewrite (proj2 (nth_error_None xs i) H).
Qed.

Lemma tgetitem2_nth (rows : list (list pyval)) i j q :
  i < length rows -> j < length (nth i rows []) ->
  tgetitem2 rows i j q = (Ok (nth j (nth i rows []) NoneVal), q).
Proof.
  intros Hi Hj. unfold tgetitem2, tbind.
  rewrite (tgetitem_nth rows [] q Hi). now apply tgetitem_nth.
Qed.

Lemma combine_seq_In {A} (xs : list A) :
  forall a i x d,
    In (i, x) (combine (seq a (length xs)) xs) ->
    a <= i < a + length xs /\ x = nth (i - a) xs d.
Proof.
  induction xs as [|y ys IH]; intros a i x d H; cbn [length seq combine] in H.
  - destruct H.
  - destruct H as [E|H].
    + inversion E; subst. cbn [length]. split; [lia|].
      now rewrite Nat.sub_diag.
    + apply (IH (S a) i x d) in H. destruct H as [Hi ->]. cbn [length].
      split; [lia|]. replace (i - a) with (S (i - S a)) by lia. reflexivity.
Qed.

Lemma enumerate_In {A} (xs : list A) i x d :
  In (i, x) (enumerate xs) -> i < length xs /\ x = nth i xs d.
Proof.
  intros H. apply (@combine_seq_In _ xs 0 i x d) in H.
  rewrite Nat.sub_0_r in H. destruct H as [Hi Hx]. split; [lia|exact Hx].
Qed.

Lemma Forall_firstn_nth {A} (P : A -> Prop) N (xs : list A) i d :
  Forall P (firstn N xs) -> i < N -> i < length xs -> P (nth i xs d).
Proof.
  intros H Hi Hlen. rewrite Forall_forall in H. apply H.
  rewrite <- (firstn_skipn N xs) at 1.
  assert (Hl : i < length (firstn N xs)) by (rewrite length_firstn; lia).
  rewrite app_nth1 by exact Hl. now apply nth_In.
Qed.

(** ** A strongly entangling block *)

Lemma rot_loop weights ws q :
  block_shape (length ws) weights ->
  tfor_each (enumerate ws) (fun '(i, wire) _ =>
    a <~ tgetitem2 weights i 0 ;;
    b <~ tgetitem2 weights i 1 ;;
    c <~ tgetitem2 weights i 2 ;;
    apply_gate (Rot a b c (WireOne wire))) tt q
  = (Ok tt, q ++ rot_gates weights ws).
Proof.
  intros [Hrows Hcols]. unfold rot_gates.
  match goal with |- context [map ?f _] => set (F := f) end.
  rewrite <- (flat_map_single F).
  apply tfor_each_emits with (out := fun x => [F x]).
  intros [i wire] q' Hin. subst F. cbv beta iota. apply (@enumerate_In _ ws i wire 0) in Hin.
  destruct Hin as [Hi _].
  assert (Hrow : 3 <= length (nth i weights []))
    by (apply Forall_firstn_nth with (N := length ws); auto; lia).
  unfold tbind. rewrite !tgetitem2_nth by lia. reflexivity.
Qed.

Lemma target_below N r i : 1 <= N -> target N r i < N.
Proof.
  intros HN. unfold target.
  pose proof (Z.mod_pos_bound (Z.of_nat i + r) (Z.of_nat N)). lia.
Qed.

Lemma imprimitive_loop cls r ws n q :
  n <= length ws ->
  tfor_each (seq 0 n) (fun i _ =>
    wi <~ wires_getitem (WireSeq ws) i ;;
    wj <~ wires_getitem (WireSeq ws)
            (Z.to_nat ((Z.of_nat i + r) mod Z.of_nat (length ws))) ;;
    apply_gate (Imprimitive cls (WireSeq [wi; wj]))) tt q
  = (Ok tt,
     q ++ map (fun i => Imprimitive cls
                 (WireSeq [nth i ws 0; nth (target (length ws) r i) ws 0]))
              (seq 0 n)).
Proof.
  intros Hn. rewrite <- flat_map_single.
  apply tfor_each_emits with
    (out := fun i => [Imprimitive cls
              (WireSeq [nth i ws 0; nth (target (length ws) r i) ws 0])]).
  intros i q' Hin. apply in_seq in Hin.
  assert (Ht : target (length ws) r i < length ws)
    by (apply target_below; lia).
  unfold tbind, wires_getitem. fold (target (length ws) r i).
  rewrite (@tgetitem_nth _ ws i 0 q') by lia.
  rewrite (@tgetitem_nth _ ws _ 0 q' Ht). reflexivity.
Qed.

Lemma entangling_block_run weights periodic r cls ws q :
  block_shape (length ws) weights ->
  StronglyEntanglingLayer weights periodic r cls (WireSeq ws) q
  = (Ok tt,
     q ++ rot_gates weights ws ++ imprimitive_gates cls periodic r ws).
Proof.
  intros Hshape. unfold StronglyEntanglingLayer, imprimitive_gates.
  cbn [enumerate_wires len_wires]. unfold tbind at 1. unfold tret at 1.
  unfold tbind at 1. rewrite rot_loop by assumption.
  unfold tbind at 1. unfold tret at 1. unfold range.
  replace (Z.to_nat (Z.of_nat (length ws) - 1)) with (length ws - 1) by lia.
  rewrite Nat2Z.id.
  destruct periodic; rewrite imprimitive_loop by lia;
    now rewrite <- app_assoc.
Qed.

(** On the wires [ws], with a row of three angles for each of them, a
    strongly entangling block returns after queuing one [Rot] per wire, in
    the order of the wires, and then one imprimitive gate per position [i]
    on the wires at [i] and at [(i + r) mod N]: for every position when the
    block is periodic, for all but the last when it is not. *)
Theorem StronglyEntanglingLayer_run weights periodic r cls ws q :
  block_shape (length ws) weights ->
  StronglyEntanglingLayer weights periodic r cls (WireSeq ws) q
  = (Ok tt,
     q ++ rot_gates weights ws ++ imprimitive_gates cls periodic r ws).
Proof. apply entangling_block_run. Qed.

Lemma StronglyEntanglingLayer_run_witness :
  StronglyEntanglingLayer [sym 0 3; sym 10 3] true 1 CNOT (WireSeq [5; 6]) []
  = (Ok tt,
     [] ++ rot_gates [sym 0 3; sym 10 3] [5; 6]
        ++ imprimitive_gates CNOT true 1 [5; 6]).
Proof.
  apply (@StronglyEntanglingLayer_run [sym 0 3; sym 10 3] true 1%Z CNOT
           [5; 6] []).
  split.
  - simpl. lia.
  - repeat constructor.
Defined.

Lemma target_fixed N r i :
  i < N -> (target N r i = i <-> (r mod Z.of_nat N = 0)%Z).
Proof.
  intros Hi. unfold target.
  assert (HN : (0 < Z.of_nat N)%Z) by lia.
  pose proof (Z.mod_pos_bound r (Z.of_nat N) HN) as Hrm.
  rewrite <- (Z.add_mod_idemp_r (Z.of_nat i) r (Z.of_nat N)) by lia.
  destruct (Z_lt_ge_dec (Z.of_nat i + r mod Z.of_nat N) (Z.of_nat N))
    as [Hlt|Hge].
  - rewrite Z.mod_small by lia. lia.
  - replace (Z.of_nat i + r mod Z.of_nat N)%Z
      with (Z.of_nat i + r mod Z.of_nat N - Z.of_nat N + 1 * Z.of_nat N)%Z
      by lia.
    rewrite Z.mod_add by lia. rewrite Z.mod_small by lia. lia.
Qed.

(** When the wires are pairwise different and the range [r] is not a
    multiple of their number, no imprimitive gate of a strongly entangling
    block acts on one wire twice. *)
Theorem StronglyEntanglingLayer_distinct weights periodic r cls ws :
  block_shape (length ws) weights ->
  NoDup ws ->
  (r mod Z.of_nat (length ws) <> 0)%Z ->
  Forall distinct_wires
    (snd (StronglyEntanglingLayer weights periodic r cls (WireSeq ws) [])).
Proof.
  intros Hshape Hnd Hr. rewrite entangling_block_run by assumption.
  cbn [snd app]. apply Forall_app. split.
  - unfold rot_gates. rewrite Forall_map, Forall_forall.
    intros [i wire] _. exact I.
  - unfold imprimitive_gates. rewrite Forall_map, Forall_forall.
    intros i Hi. apply in_seq in Hi. cbn [distinct_wires wires_of].
    assert (HiN : i < length ws) by (destruct periodic; lia).
    assert (Ht : target (length ws) r i < length ws)
      by (apply target_below; lia).
    constructor; [|constructor; [intros []|constructor]].
    intros [E|[]]. apply (proj1 (NoDup_nth ws 0) Hnd) in E; try assumption.
    apply target_fixed in E; [contradiction|assumption].
Qed.

Lemma StronglyEntanglingLayer_distinct_witness :
  Forall distinct_wires
    (snd (StronglyEntanglingLayer [sym 0 3; sym 10 3; sym 20 3] false 2 CNOT
            (WireSeq [5; 6; 7]) [])).
Proof.
  apply (@StronglyEntanglingLayer_distinct [sym 0 3; sym 10 3; sym 20 3]
           false 2%Z CNOT [5; 6; 7]).
  - split; [simpl; lia|repeat constructor].
  - repeat constructor; simpl; intuition lia.
  - discriminate.
Defined.

Lemma map_seq_nth {A B} (f : A -> B) (xs : list A) d :
  map (fun i => f (nth i xs d)) (seq 0 (length xs)) = map f xs.
Proof.
  induction xs as [|x xs IH]; cbn [length seq map]; [reflexivity|].
  f_equal. rewrite <- seq_shift, map_map. exact IH.
Qed.

(** When the range [r] is a multiple of the number of wires, which it always
    is on a single wire, every imprimitive gate of a periodic block is
    called with one wire twice. *)
Theorem StronglyEntanglingLayer_self_coupling weights r cls ws q :
  block_shape (length ws) weights ->
  1 <= length ws ->
  (r mod Z.of_nat (length ws) = 0)%Z ->
  StronglyEntanglingLayer weights true r cls (WireSeq ws) q
  = (Ok tt,
     q ++ rot_gates weights ws
       ++ map (fun wire => Imprimitive cls (WireSeq [wire; wire])) ws).
Proof.
  intros Hshape HN Hr. rewrite entangling_block_run by assumption.
  do 3 f_equal. unfold imprimitive_gates.
  rewrite <- (map_seq_nth (fun wire => Imprimitive cls (WireSeq [wire; wire]))
                ws 0).
  apply map_ext_in. intros i Hi. apply in_seq in Hi.
  assert (Hi' : i < length ws) by lia.
  now rewrite (proj2 (target_fixed r Hi') Hr).
Qed.

Lemma StronglyEntanglingLayer_self_coupling_witness :
  StronglyEntanglingLayer [sym 0 3] true 1 CNOT (WireSeq [5]) []
  = (Ok tt,
     [] ++ rot_gates [sym 0 3] [5]
        ++ map (fun wire => Imprimitive CNOT (WireSeq [wire; wire])) [5]).
Proof.
  apply (@StronglyEntanglingLayer_self_coupling [sym 0 3] 1%Z CNOT [5] []).
  - split; [simpl; lia|repeat constructor].
  - simpl. lia.
  - reflexivity.
Defined.

Lemma target_next N i : S i < N -> target N 1 i = S i.
Proof.
  intros H. unfold target. rewrite Z.mod_small by lia. lia.
Qed.

Lemma target_last N : 1 <= N -> target N 1 (N - 1) = 0.
Proof.
  intros H. unfold target.
  replace (Z.of_nat (N - 1) + 1)%Z with (Z.of_nat N) by lia.
  now rewrite Z.mod_same by lia.
Qed.

(** With the default range [r = 1] a strongly entangling block on [N >= 1]
    wires queues, after the rotations, the imprimitive gates of a chain, each
    wire with the next one; a periodic block closes the chain with a gate
    from the last wire to the first. *)
Theorem StronglyEntanglingLayer_chain weights periodic cls ws q :
  block_shape (length ws) weights ->
  1 <= length ws ->
  StronglyEntanglingLayer weights periodic 1 cls (WireSeq ws) q
  = (Ok tt,
     q ++ rot_gates weights ws
       ++ map (fun i => Imprimitive cls (WireSeq [nth i ws 0; nth (S i) ws 0]))
              (seq 0 (length ws - 1))
       ++ (if periodic
           then [Imprimitive cls
                   (WireSeq [nth (length ws - 1) ws 0; nth 0 ws 0])]
           else [])).
Proof.
  intros Hshape HN. rewrite entangling_block_run by assumption.
  do 3 f_equal. unfold imprimitive_gates.
  assert (Hchain :
    map (fun i => Imprimitive cls
                    (WireSeq [nth i ws 0; nth (target (length ws) 1 i) ws 0]))
        (seq 0 (length ws - 1))
    = map (fun i => Imprimitive cls (WireSeq [nth i ws 0; nth (S i) ws 0]))
          (seq 0 (length ws - 1))).
  { apply map_ext_in. intros i Hi. apply in_seq in Hi.
    rewrite target_next by lia. reflexivity. }
  destruct periodic.
  - replace (length ws) with (S (length ws - 1)) at 1 by lia.
    rewrite seq_S, map_app, Hchain. cbn [map Nat.add].
    now rewrite target_last by assumption.
  - now rewrite Hchain, app_nil_r.
Qed.

Lemma StronglyEntanglingLayer_chain_witness :
  StronglyEntanglingLayer [sym 0 3; sym 10 3; sym 20 3] true 1 CNOT
    (WireSeq [5; 6; 7]) []
  = (Ok tt,
     [] ++ rot_gates [sym 0 3; sym 10 3; sym 20 3] [5; 6; 7]
        ++ map (fun i => Imprimitive CNOT
                           (WireSeq [nth i [5; 6; 7] 0; nth (S i) [5; 6; 7] 0]))
               (seq 0 (length [5; 6; 7] - 1))
        ++ (if true
            then [Imprimitive CNOT
                    (WireSeq [nth (length [5; 6; 7] - 1) [5; 6; 7] 0;
                              nth 0 [5; 6; 7] 0])]
            else [])).
Proof.
  apply (@StronglyEntanglingLayer_chain [sym 0 3; sym 10 3; sym 20 3] true
           CNOT [5; 6; 7] []).
  - split; [simpl; lia|repeat constructor].
  - simpl. lia.
Defined.

(** Leaving out the periodic boundary does not keep the imprimitive gates
    from wrapping around: with a range [2 <= r < N] the gate of the position
    before the last points back at the position [r - 2]. *)
Theorem StronglyEntanglingLayer_wraps weights r cls ws :
  block_shape (length ws) weights ->
  (2 <= r < Z.of_nat (length ws))%Z ->
  In (Imprimitive cls
        (WireSeq [nth (length ws - 2) ws 0; nth (Z.to_nat (r - 2)) ws 0]))
     (snd (StronglyEntanglingLayer weights false r cls (WireSeq ws) [])).
Proof.
  intros Hshape Hr. rewrite entangling_block_run by assumption.
  cbn [snd app]. apply in_or_app. right. unfold imprimitive_gates.
  unfold wire in *.
  assert (E : target (length ws) r (length ws - 2) = Z.to_nat (r - 2)).
  { unfold target. f_equal. symmetry.
    apply Z.mod_unique with (q := 1%Z); lia. }
  apply in_map_iff. exists (length ws - 2). split.
  - now rewrite E.
  - apply in_seq. lia.
Qed.

Lemma StronglyEntanglingLayer_wraps_witness :
  In (Imprimitive CNOT
        (WireSeq [nth (length [5; 6; 7] - 2) [5; 6; 7] 0;
                  nth (Z.to_nat (2 - 2)) [5; 6; 7] 0]))
     (snd (StronglyEntanglingLayer [sym 0 3; sym 10 3; sym 20 3] false 2 CNOT
             (WireSeq [5; 6; 7]) [])).
Proof.
  apply (@StronglyEntanglingLayer_wraps [sym 0 3; sym 10 3; sym 20 3] 2%Z
           CNOT [5; 6; 7]).
  - split; [simpl; lia|repeat constructor].
  - simpl. lia.
Defined.

Lemma rot_loop_from_fails weights ws :
  Forall (fun row => 3 <= length row) weights ->
  forall a q, a <= length weights -> length weights < a + length ws ->
    tfor_each (combine (seq a (length ws)) ws) (fun '(i, wire) _ =>
      a <~ tgetitem2 weights i 0 ;;
      b <~ tgetitem2 weights i 1 ;;
      c <~ tgetitem2 weights i 2 ;;
      apply_gate (Rot a b c (WireOne wire))) tt q
    = (Raise IndexError,
       q ++ map (fun '(i, wire) =>
                   Rot (nth 0 (nth i weights []) NoneVal)
                       (nth 1 (nth i weights []) NoneVal)
                       (nth 2 (nth i weights []) NoneVal) (WireOne wire))
                (combine (seq a (length weights - a))
                         (firstn (length weights - a) ws))).
Proof.
  intros Hrows. induction ws as [|w ws IH]; intros a q Ha H;
    cbn [length seq combine tfor_each] in *.
  - lia.
  - unfold tbind at 1.
    destruct (Nat.eq_dec a (length weights)) as [E|E].
    + unfold tbind at 1. unfold tgetitem2 at 1. unfold tbind at 1.
      rewrite tgetitem_out by lia.
      replace (length weights - a) with 0 by lia. cbn [seq combine map].
      now rewrite app_nil_r.
    + assert (Hrow : 3 <= length (nth a weights [])).
      { rewrite Forall_forall in Hrows. apply Hrows. apply nth_In. lia. }
      unfold tbind at 1. rewrite tgetitem2_nth by lia.
      unfold tbind at 1. rewrite tgetitem2_nth by lia.
      unfold tbind at 1. rewrite tgetitem2_nth by lia.
      unfold apply_gate at 1. rewrite IH by lia.
      replace (length weights - a) with (S (length weights - S a)) by lia.
      cbn [seq firstn combine map]. now rewrite <- app_assoc.
Qed.

(** With fewer rows of angles than wires, a strongly entangling block
    raises the [IndexError] after the rotations of the wires that have a row,
    and queues no imprimitive gate. *)
Theorem StronglyEntanglingLayer_short_weights weights periodic r cls ws q :
  Forall (fun row => 3 <= length row) weights ->
  length weights < length ws ->
  StronglyEntanglingLayer weights periodic r cls (WireSeq ws) q
  = (Raise IndexError,
     q ++ rot_gates weights (firstn (length weights) ws)).
Proof.
  intros Hrows Hlen. unfold StronglyEntanglingLayer, rot_gates, enumerate.
  cbn [enumerate_wires]. unfold tbind at 1. unfold tret at 1.
  unfold tbind at 1. unfold enumerate.
  rewrite rot_loop_from_fails by (assumption || lia).
  rewrite Nat.sub_0_r, length_firstn, Nat.min_l by lia. reflexivity.
Qed.

Lemma StronglyEntanglingLayer_short_weights_witness :
  StronglyEntanglingLayer [sym 0 3] true 1 CNOT (WireSeq [5; 6]) []
  = (Raise IndexError,
     [] ++ rot_gates [sym 0 3] (firstn (length [sym 0 3]) [5; 6])).
Proof.
  apply (@StronglyEntanglingLayer_short_weights [sym 0 3] true 1%Z CNOT
           [5; 6] []).
  - repeat constructor.
  - simpl. lia.
Defined.

(** ** A strongly entangling circuit *)

(** A strongly entangling circuit runs one block for each block of weights
    that has a range, in order; blocks of weights beyond the ranges, and
    ranges beyond the blocks of weights, are passed over without an error.
    Without ranges every block of weights is run, with the range 1. *)
Theorem StronglyEntanglingLayers_run weights periodic ranges cls ws q :
  Forall (fun block => block_shape (length ws) (fst block))
         (zipped_blocks weights ranges) ->
  StronglyEntanglingLayers weights periodic ranges cls (WireSeq ws) q
  = (Ok tt,
     q ++ flat_map (fun block =>
                      rot_gates (fst block) ws
                      ++ imprimitive_gates cls periodic (snd block) ws)
                   (zipped_blocks weights ranges))
  /\ length (zipped_blocks weights ranges)
     = match ranges with
       | None => length weights
       | Some rs => Nat.min (length weights) (length rs)
       end.
Proof.
  intros Hshape. split.
  - unfold StronglyEntanglingLayers. cbv zeta. fold (zipped_blocks weights ranges).
    apply tfor_each_emits. intros [bw br] q' Hin. cbn [fst snd].
    apply entangling_block_run.
    rewrite Forall_forall in Hshape. apply (Hshape _ Hin).
  - unfold zipped_blocks. rewrite length_combine.
    destruct ranges; [reflexivity|]. rewrite repeat_length. apply Nat.min_id.
Qed.

Lemma StronglyEntanglingLayers_run_witness :
  StronglyEntanglingLayers [[sym 0 3; sym 10 3]; [sym 20 3; sym 30 3]; []]
    true (Some [1%Z; 3%Z]) CNOT (WireSeq [5; 6]) []
  = (Ok tt,
     [] ++ flat_map (fun block =>
                       rot_gates (fst block) [5; 6]
                       ++ imprimitive_gates CNOT true (snd block) [5; 6])
                    (zipped_blocks
                       [[sym 0 3; sym 10 3]; [sym 20 3; sym 30 3]; []]
                       (Some [1%Z; 3%Z])))
  /\ length (zipped_blocks [[sym 0 3; sym 10 3]; [sym 20 3; sym 30 3]; []]
               (Some [1%Z; 3%Z]))
     = Nat.min (length [[sym 0 3; sym 10 3]; [sym 20 3; sym 30 3];
                        @nil (list pyval)])
               (length [1%Z; 3%Z]).
Proof.
  apply (@StronglyEntanglingLayers_run
           [[sym 0 3; sym 10 3]; [sym 20 3; sym 30 3]; []]
           true (Some [1%Z; 3%Z]) CNOT [5; 6] []).
  repeat constructor; simpl; lia.
Defined.

(** ** A layer of the continuous-variable network *)

Lemma call_run {A} (m : Prog A) q :
  call m q = (fst (m []), q ++ map MeshOp (snd (m []))).
Proof. unfold call. now destruct (m []). Qed.

Lemma call_Interferometer theta phi varphi ws q :
  2 <= length ws ->
  length ws * (length ws - 1) / 2 <= length theta ->
  length ws * (length ws - 1) / 2 <= length phi ->
  length varphi <= length ws ->
  call (Interferometer theta phi varphi (WireSeq ws) default_mesh
          default_beamsplitter) q
  = (Ok tt, q ++ mesh_gates theta phi varphi ws).
Proof.
  intros HN Ht Hp Hv. rewrite call_run.
  pose proof (@mesh_count default_mesh _ HN (or_introl eq_refl)) as Hc.
  rewrite (@interferometer_run theta phi varphi ws default_mesh
             default_beamsplitter []); try reflexivity; try assumption;
    try lia.
Qed.

Lemma per_wire_loop (body : nat * wire -> unit -> Template unit)
    (mk : nat -> wire -> gate) ws q :
  (forall i wire q', i < length ws ->
     body (i, wire) tt q' = (Ok tt, q' ++ [mk i wire])) ->
  tfor_each (enumerate ws) body tt q = (Ok tt, q ++ per_wire mk ws).
Proof.
  intros Hbody. unfold per_wire.
  match goal with |- context [map ?f _] => set (F := f) end.
  rewrite <- (flat_map_single F).
  apply tfor_each_emits with (out := fun x => [F x]).
  intros [i wire] q' Hin. apply (@enumerate_In _ ws i wire 0) in Hin.
  apply Hbody. apply Hin.
Qed.

(** On [M >= 2] wires, with angle arrays long enough for the two
    interferometers and one entry per wire in the other arrays, a layer of
    the network returns after queuing, in this order: the first
    interferometer (rectangular mesh, default convention), a squeezing gate
    per wire, the second interferometer, a displacement per wire and a Kerr
    gate per wire. *)
Theorem CVNeuralNetLayer_run
    theta_1 phi_1 varphi_1 r phi_r theta_2 phi_2 varphi_2 a phi_a k ws q :
  2 <= length ws ->
  length ws * (length ws - 1) / 2 <= length theta_1 ->
  length ws * (length ws - 1) / 2 <= length phi_1 ->
  length varphi_1 <= length ws ->
  length ws * (length ws - 1) / 2 <= length theta_2 ->
  length ws * (length ws - 1) / 2 <= length phi_2 ->
  length varphi_2 <= length ws ->
  length ws <= length r -> length ws <= length phi_r ->
  length ws <= length a -> length ws <= length phi_a ->
  length ws <= length k ->
  CVNeuralNetLayer theta_1 phi_1 varphi_1 r phi_r theta_2 phi_2 varphi_2
    a phi_a k (WireSeq ws) q
  = (Ok tt,
     q ++ mesh_gates theta_1 phi_1 varphi_1 ws
       ++ per_wire (fun i wire =>
                      Squeezing (nth i r NoneVal) (nth i phi_r NoneVal)
                                (WireOne wire)) ws
       ++ mesh_gates theta_2 phi_2 varphi_2 ws
       ++ per_wire (fun i wire =>
                      Displacement (nth i a NoneVal) (nth i phi_a NoneVal)
                                   (WireOne wire)) ws
       ++ per_wire (fun i wire => Kerr (nth i k NoneVal) (WireOne wire)) ws).
Proof.
  intros HN Ht1 Hp1 Hv1 Ht2 Hp2 Hv2 Hr Hpr Ha Hpa Hk.
  unfold CVNeuralNetLayer. cbn [enumerate_wires].
  unfold tbind at 1. rewrite call_Interferometer by assumption.
  unfold tbind at 1. unfold tret at 1.
  unfold tbind at 1.
  rewrite (per_wire_loop _
             (fun i wire => Squeezing (nth i r NoneVal) (nth i phi_r NoneVal)
                                      (WireOne wire))).
  2:{ intros i wire q' Hi. unfold tbind.
      rewrite (@tgetitem_nth _ r i NoneVal) by lia.
      rewrite (@tgetitem_nth _ phi_r i NoneVal) by lia. reflexivity. }
  unfold tbind at 1. rewrite call_Interferometer by assumption.
  unfold tbind at 1. unfold tret at 1.
  unfold tbind at 1.
  rewrite (per_wire_loop _
             (fun i wire => Displacement (nth i a NoneVal)
                              (nth i phi_a NoneVal) (WireOne wire))).
  2:{ intros i wire q' Hi. unfold tbind.
      rewrite (@tgetitem_nth _ a i NoneVal) by lia.
      rewrite (@tgetitem_nth _ phi_a i NoneVal) by lia. reflexivity. }
  unfold tbind at 1. unfold tret at 1.
  rewrite (per_wire_loop _
             (fun i wire => Kerr (nth i k NoneVal) (WireOne wire))).
  2:{ intros i wire q' Hi. unfold tbind.
      rewrite (@tgetitem_nth _ k i NoneVal) by lia. reflexivity. }
  now rewrite <- !app_assoc.
Qed.

Lemma CVNeuralNetLayer_run_witness :
  CVNeuralNetLayer (sym 0 1) (sym 10 1) (sym 20 2) (sym 30 2) (sym 40 2)
    (sym 50 1) (sym 60 1) (sym 70 1) (sym 80 2) (sym 90 2) (sym 100 2)
    (WireSeq [5; 6]) []
  = (Ok tt,
     [] ++ mesh_gates (sym 0 1) (sym 10 1) (sym 20 2) [5; 6]
        ++ per_wire (fun i wire =>
                       Squeezing (nth i (sym 30 2) NoneVal)
                         (nth i (sym 40 2) NoneVal) (WireOne wire)) [5; 6]
        ++ mesh_gates (sym 50 1) (sym 60 1) (sym 70 1) [5; 6]
        ++ per_wire (fun i wire =>
                       Displacement (nth i (sym 80 2) NoneVal)
                         (nth i (sym 90 2) NoneVal) (WireOne wire)) [5; 6]
        ++ per_wire (fun i wire =>
                       Kerr (nth i (sym 100 2) NoneVal) (WireOne wire))
             [5; 6]).
Proof.
  apply (@CVNeuralNetLayer_run (sym 0 1) (sym 10 1) (sym 20 2) (sym 30 2)
           (sym 40 2) (sym 50 1) (sym 60 1) (sym 70 1) (sym 80 2) (sym 90 2)
           (sym 100 2) [5; 6] []); simpl; lia.
Defined.

(** A bare wire label, which [Interferometer] takes for a single wire, is
    not enough for a layer of the network: after the rotation of the first
    interferometer is queued, iterating the wires raises the [TypeError]. *)
Theorem CVNeuralNetLayer_bare_wire
    theta_1 phi_1 p varphi_1 r phi_r theta_2 phi_2 varphi_2 a phi_a k w q :
  CVNeuralNetLayer theta_1 phi_1 (p :: varphi_1) r phi_r theta_2 phi_2
    varphi_2 a phi_a k (WireOne w) q
  = (Raise (TypeError not_iterable), q ++ [MeshOp (Rotation p (WireOne w))]).
Proof.
  unfold CVNeuralNetLayer. unfold tbind at 1. rewrite call_run.
  reflexivity.
Qed.

(** ** The layers of the continuous-variable network *)

Lemma tfor_each_ext {A S} (xs : list A) (body body' : A -> S -> Template S) :
  (forall x s q, body x s q = body' x s q) ->
  forall s q, tfor_each xs body s q = tfor_each xs body' s q.
Proof.
  intros H. induction xs as [|x xs IH]; intros s q; cbn [tfor_each].
  - reflexivity.
  - unfold tbind. rewrite H. destruct (body' x s q) as [[s'|e] q'];
      [apply IH|reflexivity].
Qed.

Lemma tfor_each_map {A B S} (f : A -> B) (xs : list A)
    (body : B -> S -> Template S) :
  forall s q,
    tfor_each (map f xs) body s q = tfor_each xs (fun x => body (f x)) s q.
Proof.
  induction xs as [|x xs IH]; intros s q; cbn [map tfor_each].
  - reflexivity.
  - unfold tbind. destruct (body (f x) s q) as [[s'|e] q'];
      [apply IH|reflexivity].
Qed.

(** The network runs one layer per row of [theta_1]: none at all when
    [theta_1] is empty, whatever the other arrays hold, and otherwise the
    layer of the first rows followed, when that layer returns, by the network
    of the remaining rows. *)
Theorem CVNeuralNetLayers_unroll :
  (forall phi_1 varphi_1 r phi_r theta_2 phi_2 varphi_2 a phi_a k wires q,
     CVNeuralNetLayers [] phi_1 varphi_1 r phi_r theta_2 phi_2 varphi_2
       a phi_a k wires q
     = (Ok tt, q))
  /\ (forall t1 theta_1 p1 phi_1 v1 varphi_1 r0 r pr0 phi_r t2 theta_2
             p2 phi_2 v2 varphi_2 a0 a pa0 phi_a k0 k wires q,
        CVNeuralNetLayers (t1 :: theta_1) (p1 :: phi_1) (v1 :: varphi_1)
          (r0 :: r) (pr0 :: phi_r) (t2 :: theta_2) (p2 :: phi_2)
          (v2 :: varphi_2) (a0 :: a) (pa0 :: phi_a) (k0 :: k) wires q
        = (CVNeuralNetLayer t1 p1 v1 r0 pr0 t2 p2 v2 a0 pa0 k0 wires ~;;
           CVNeuralNetLayers theta_1 phi_1 varphi_1 r phi_r theta_2 phi_2
             varphi_2 a phi_a k wires) q).
Proof.
  split; [reflexivity|]. intros.
  unfold CVNeuralNetLayers. cbv zeta. unfold range. rewrite !Nat2Z.id.
  cbn [length seq].
  match goal with |- tfor_each _ ?b _ _ = _ => set (body := b) end.
  match goal with
  | |- _ = tbind _ (fun _ => tfor_each _ ?b _) _ => set (body' := b)
  end.
  cbn [tfor_each]. rewrite <- seq_shift.
  transitivity
    (tbind (CVNeuralNetLayer t1 p1 v1 r0 pr0 t2 p2 v2 a0 pa0 k0 wires)
       (fun s' => tfor_each (map S (seq 0 (length theta_1))) body s') q);
    [reflexivity|].
  unfold tbind.
  destruct (CVNeuralNetLayer t1 p1 v1 r0 pr0 t2 p2 v2 a0 pa0 k0 wires q)
    as [[[]|e] q']; [|reflexivity].
  rewrite tfor_each_map. apply tfor_each_ext. intros l [] q''. reflexivity.
Qed.
